(** * orders-service: the TTL cache, the ingestion handler, the lookup
    handler and the start-up sequence, embedded from the Go sources.

    Packages become modules of the same name ([model], [cache], [database],
    [handler], [server], [app]).  The cache's map is a [gmap string Item];
    the relational store is four lists of rows behind a transaction; the
    file system is a [gmap] from paths to bytes.  Every method of the cache
    runs under its mutex, so a method is one atomic step here; the clock
    reading a method takes ([time.Now]) is an explicit argument [now], the
    Unix time in nanoseconds.

    The cache is shared by the goroutines of the program: the consumer
    loop, the handlers of the HTTP requests and the reaper.  A function
    that uses the cache more than once ([HandleOrder] in the loop,
    [orderAPIHandler]) takes as an argument what the other goroutines do
    to the cache between its calls. *)

From Stdlib Require Import ZArith Lia.
From Stdlib.Strings Require Import Ascii Byte String.
From stdpp Require Import countable strings list fin_maps gmap.

Local Open Scope Z_scope.

(** ** Go values shared by all packages *)

(** Go's [error] values as the program builds and inspects them:
    the two sentinels of package [model], failures reported by the
    libraries, and [fmt.Errorf] with and without the wrapping verb. *)
Inductive error : Type :=
| ErrOrderExists
| ErrOrderNotFound
| PathError (op path : string)
| GobError
| JsonError
| PgError
| KafkaError
| Errorf (msg : string)
| Wrapf (msg : string) (cause : error).

(** [errors.Is]: [target] is [err] or is reached by unwrapping it. *)
Fixpoint errors_Is (err target : error) : bool :=
  match err, target with
  | ErrOrderExists, ErrOrderExists => true
  | ErrOrderNotFound, ErrOrderNotFound => true
  | Wrapf _ cause, _ => errors_Is cause target
  | _, _ => false
  end.

(** [int64] wrap-around, for [Time.UnixNano]. *)
Definition min_int64 : Z := - 2 ^ 63.
Definition max_int64 : Z := 2 ^ 63 - 1.
Definition wrap64 (z : Z) : Z := (z + 2 ^ 63) mod 2 ^ 64 - 2 ^ 63.

(** [time.Duration] counts nanoseconds. *)
Definition Nanosecond : Z := 1.
Definition Second : Z := 1000000000 * Nanosecond.
Definition Minute : Z := 60 * Second.

(** [time.Now().Add(d).UnixNano()] for a clock that reads [now]: the
    addition on [time.Time] is exact, the conversion to [int64] wraps. *)
Definition Add_UnixNano (now d : Z) : Z := wrap64 (now + d).

(** ** package model *)

Module model.

(** Modelled from the spec: package [model] (the types Order, Delivery,
    Payment, Item, ItemInfo and the errors ErrOrderExists and
    ErrOrderNotFound) is not among the sources.  The records below carry
    exactly the fields that [database.MakeOrder], [database.GetAllOrders],
    [database.ItemsInfo] and [server.orderToModel] read and write; text
    fields are strings and numeric fields integers. *)
Record Delivery : Type := {
  Name : string; Phone : string; Zip : string; City : string;
  Address : string; Region : string; Email : string }.

Record Payment : Type := {
  Transaction : string; RequestID : string; Currency : string;
  Provider : string; Amount : Z; PaymentDt : Z; Bank : string;
  DeliveryCost : Z; GoodsTotal : Z; CustomFee : Z }.

Record Item : Type := {
  ChrtID : Z; ItemTrackNumber : string; Price : Z; RID : string;
  ItemName : string; Sale : Z; Size : string; TotalPrice : Z;
  NmID : Z; Brand : string; Status : Z }.

Record ItemInfo : Type := {
  InfoTrackNumber : string; InfoName : string; InfoPrice : Z;
  InfoSale : Z; InfoSize : string; InfoTotalPrice : Z; InfoBrand : string }.

Record Order : Type := {
  OrderUID : string; TrackNumber : string; Entry : string;
  OrderDelivery : Delivery; OrderPayment : Payment; Items : list Item;
  Locale : string; InternalSignature : string; CustomerID : string;
  DeliveryService : string; Shardkey : string; SmID : Z;
  DateCreated : string; OofShard : string }.

(** Go's zero values ([model.Order{}] and the like). *)
Definition zeroDelivery : Delivery :=
  {| Name := ""; Phone := ""; Zip := ""; City := ""; Address := "";
     Region := ""; Email := "" |}.

Definition zeroPayment : Payment :=
  {| Transaction := ""; RequestID := ""; Currency := ""; Provider := "";
     Amount := 0; PaymentDt := 0; Bank := ""; DeliveryCost := 0;
     GoodsTotal := 0; CustomFee := 0 |}.

Definition zeroItem : Item :=
  {| ChrtID := 0; ItemTrackNumber := ""; Price := 0; RID := "";
     ItemName := ""; Sale := 0; Size := ""; TotalPrice := 0; NmID := 0;
     Brand := ""; Status := 0 |}.

Definition zeroOrder : Order :=
  {| OrderUID := ""; TrackNumber := ""; Entry := "";
     OrderDelivery := zeroDelivery; OrderPayment := zeroPayment; Items := [];
     Locale := ""; InternalSignature := ""; CustomerID := "";
     DeliveryService := ""; Shardkey := ""; SmID := 0; DateCreated := "";
     OofShard := "" |}.

End model.

(** ** The file system and encoding/gob, as package cache uses them *)

Module os.

(** Files by path.  [os.Create] truncates or creates, [os.Open] needs
    the file to exist; either can also fail for reasons outside the
    program (permissions, a full disk), which [IoFaults] decides. *)
Inductive IoOp : Type := OpCreate | OpWrite | OpOpen | OpRead.

Definition IoFaults : Type := IoOp → bool.

Definition no_io_faults : IoFaults := λ _, false.

Definition Create (io : IoFaults) (path : string) (fs : gmap string (list byte))
  : error + gmap string (list byte) :=
  if io OpCreate then inl (PathError "open" path)
  else inr (<[path := []]> fs).

Definition Open (io : IoFaults) (path : string) (fs : gmap string (list byte))
  : error + list byte :=
  if io OpOpen then inl (PathError "open" path)
  else match fs !! path with
       | Some data => inr data
       | None => inl (PathError "open" path)
       end.

(** The calls a writer issues against the file system, one by one, and
    what the file system holds when only the first [k] of them happened
    before the process died. *)
Inductive FsCall : Type :=
| CallCreate (path : string)
| CallWrite (path : string) (data : list byte).

Definition apply_call (fs : gmap string (list byte)) (call : FsCall)
  : gmap string (list byte) :=
  match call with
  | CallCreate path => <[path := []]> fs
  | CallWrite path data => <[path := default [] (fs !! path) ++ data]> fs
  end.

Definition run_calls (calls : list FsCall) (fs : gmap string (list byte))
  : gmap string (list byte) :=
  foldl apply_call fs calls.

Definition crash_after (k : nat) (calls : list FsCall)
  (fs : gmap string (list byte)) : gmap string (list byte) :=
  run_calls (take k calls) fs.

End os.

(** ** package cache *)

Module cache.

(** Item represents a cached order with an optional expiration time
    (Unix time in nanoseconds; 0 means none). *)
Record Item : Type := { Order : model.Order; Expiration : Z }.

(** [Item.IsExpired], for a clock reading [now]. *)
Definition IsExpired (item : Item) (now : Z) : bool :=
  if Expiration item =? 0 then false
  else now >? Expiration item.

Definition NoExpiration : Z := -1 * Second.
Definition DefaultTTL : Z := 10 * Minute.
Definition gcInterval_const : Z := 30 * Second.

(** The [Cache] struct without its mutex and its stop channel.  The
    background loop [gcLoop] calls [DeleteExpired] at every tick: a sweep
    of the reaper is a [DeleteExpired] at some clock reading. *)
Record Cache : Type := {
  items : gmap string Item;
  gcInterval : Z;
  cacheFile : string }.

Definition with_items (c : Cache) (m : gmap string Item) : Cache :=
  {| items := m; gcInterval := gcInterval c; cacheFile := cacheFile c |}.

(** The body of [DeleteExpired]'s loop, for one entry of the range. *)
Definition DeleteExpired_step (now : Z) (m : gmap string Item)
  (kv : string * Item) : gmap string Item :=
  if (Expiration kv.2 >? 0) && (now >? Expiration kv.2)
  then delete kv.1 m
  else m.

(** [DeleteExpired]: one sweep of the reaper, at clock reading [now].
    The entries are ranged over in the order [map_to_list] gives. *)
Definition DeleteExpired (c : Cache) (now : Z) : Cache :=
  with_items c (foldl (DeleteExpired_step now) (items c) (map_to_list (items c))).

Definition New (file : string) : Cache :=
  let file := if decide (file = "") then "order_cache.gob" else file in
  {| items := ∅; gcInterval := gcInterval_const; cacheFile := file |}.

(** [Set]: the name is a keyword here, hence the underscore. *)
Definition Set_ (c : Cache) (order : model.Order) (d : Z) (now : Z) : Cache :=
  let e := if d >? 0 then Add_UnixNano now d else 0 in
  with_items c (<[model.OrderUID order := {| Order := order; Expiration := e |}]> (items c)).

Definition Get (c : Cache) (orderUID : string) : model.Order * bool :=
  match items c !! orderUID with
  | None => (model.zeroOrder, false)
  | Some item => (Order item, true)
  end.

Definition Delete (c : Cache) (orderUID : string) : Cache :=
  with_items c (delete orderUID (items c)).

(** encoding/gob for the one type the cache encodes, [map[string]Item]:
    an encoder to bytes and a decoder that can refuse its input. *)
Class Gob : Type := {
  gob_encode : gmap string Item → list byte;
  gob_decode : list byte → option (gmap string Item) }.

Section persistence.
Context `{Gob}.

(** The copy [SaveToFile] takes under the read lock. *)
Definition copy_items (m : gmap string Item) : gmap string Item :=
  foldl (λ acc kv, <[kv.1 := kv.2]> acc) ∅ (map_to_list m).

(** [SaveToFile]: the result and the file system afterwards.  When the
    encoder's write fails the file stays as [os.Create] left it. *)
Definition SaveToFile (io : os.IoFaults) (c : Cache) (fs : gmap string (list byte))
  : option error * gmap string (list byte) :=
  let items := copy_items (items c) in
  match os.Create io (cacheFile c) fs with
  | inl err => (Some err, fs)
  | inr fs1 =>
      if io os.OpWrite then (Some GobError, fs1)
      else (None, <[cacheFile c := gob_encode items]> fs1)
  end.

(** The file-system calls of a [SaveToFile] run, in program order. *)
Definition SaveToFile_calls (c : Cache) : list os.FsCall :=
  [os.CallCreate (cacheFile c);
   os.CallWrite (cacheFile c) (gob_encode (copy_items (items c)))].

(** [LoadFromFile]: the result and the cache afterwards. *)
Definition LoadFromFile (io : os.IoFaults) (c : Cache) (fs : gmap string (list byte))
  : option error * Cache :=
  match os.Open io (cacheFile c) fs with
  | inl err => (Some err, c)
  | inr data =>
      if io os.OpRead then (Some GobError, c)
      else match gob_decode data with
           | None => (Some GobError, c)
           | Some items => (None, with_items c items)
           end
  end.

End persistence.

(** [gcLoop]: the sweeps of the background loop, one per tick of its
    ticker, until the stop channel is served; [ticks] are the clock
    readings of the sweeps, oldest first. *)
Definition gcLoop (c : Cache) (ticks : list Z) : Cache :=
  foldl DeleteExpired c ticks.

End cache.

(** ** package database *)

Module database.

(** One record per table, with the columns the statements name. *)
Record OrderRow : Type := {
  order_uid : string; track_number : string; entry : string;
  locale : string; internal_signature : string; customer_id : string;
  delivery_service : string; shardkey : string; sm_id : Z;
  date_created : string; oof_shard : string }.

Record DeliveryRow : Type := {
  d_order_uid : string; d_name : string; d_phone : string; d_zip : string;
  d_city : string; d_address : string; d_region : string; d_email : string }.

Record PaymentRow : Type := {
  p_transaction : string; p_order_uid : string; p_request_id : string;
  p_currency : string; p_provider : string; p_amount : Z;
  p_payment_dt : Z; p_bank : string; p_delivery_cost : Z;
  p_goods_total : Z; p_custom_fee : Z }.

Record ItemRow : Type := {
  i_chrt_id : Z; i_track_number : string; i_price : Z; i_rid : string;
  i_name : string; i_sale : Z; i_size : string; i_total_price : Z;
  i_nm_id : Z; i_brand : string; i_status : Z; i_order_uid : string }.

(** What the pool is connected to: the committed rows of the four
    tables.  [Database] is a handle on it. *)
Record Tables : Type := {
  orders : list OrderRow;
  delivery : list DeliveryRow;
  payment : list PaymentRow;
  items : list ItemRow }.

Definition Database : Type := Tables.

(** The statements that can fail for reasons outside the program (a
    lost connection, a violated constraint); [DbFaults] decides which
    of them do. *)
Inductive DbOp : Type :=
| OpBegin
| OpCheckDuplicate
| OpInsertOrder
| OpInsertDelivery
| OpInsertPayment
| OpInsertItem (i : nat)
| OpCommit
| OpQueryItems
| OpRowsItems
| OpQueryAllOrders
| OpRowsAllOrders.

Definition DbFaults : Type := DbOp → bool.

Definition no_db_faults : DbFaults := λ _, false.

(** Statements run on a transaction: they see and change the
    transaction's own rows and may fail.  A run gives the value or the
    error, and the transaction's rows as they are then; an error ends the
    run. *)
Definition Tx (A : Type) : Type := Tables → (error + A) * Tables.

Definition tx_ret {A : Type} (a : A) : Tx A := λ t, (inr a, t).

Definition tx_fail {A : Type} (err : error) : Tx A := λ t, (inl err, t).

Definition tx_bind {A B : Type} (m : Tx A) (k : A → Tx B) : Tx B :=
  λ t, match m t with
       | (inl err, t') => (inl err, t')
       | (inr a, t') => k a t'
       end.

Notation "'let*' x ':=' m 'in' k" := (tx_bind m (λ x, k))
  (at level 10, x pattern, m at level 100, k at level 200).

(** [tx.Exec]: the statement [op] changing the rows by [f]; a failure is
    reported as [msg] wrapping the driver's error. *)
Definition tx_Exec (faults : DbFaults) (op : DbOp) (msg : string)
  (f : Tables → Tables) : Tx unit :=
  λ t, if faults op then (inl (Wrapf msg PgError), t) else (inr tt, f t).

(** [tx.QueryRow(...).Scan]: a value read off the transaction's rows. *)
Definition tx_QueryRow {A : Type} (faults : DbFaults) (op : DbOp) (msg : string)
  (q : Tables → A) : Tx A :=
  λ t, if faults op then (inl (Wrapf msg PgError), t) else (inr (q t), t).

Definition order_exists (uid : string) (t : Tables) : bool :=
  existsb (λ r, bool_decide (order_uid r = uid)) (orders t).

Definition insert_order (o : model.Order) (t : Tables) : Tables :=
  {| orders := orders t ++
       [{| order_uid := model.OrderUID o; track_number := model.TrackNumber o;
           entry := model.Entry o; locale := model.Locale o;
           internal_signature := model.InternalSignature o;
           customer_id := model.CustomerID o;
           delivery_service := model.DeliveryService o;
           shardkey := model.Shardkey o; sm_id := model.SmID o;
           date_created := model.DateCreated o; oof_shard := model.OofShard o |}];
     delivery := delivery t; payment := payment t; items := items t |}.

Definition insert_delivery (o : model.Order) (t : Tables) : Tables :=
  let d := model.OrderDelivery o in
  {| orders := orders t;
     delivery := delivery t ++
       [{| d_order_uid := model.OrderUID o; d_name := model.Name d;
           d_phone := model.Phone d; d_zip := model.Zip d;
           d_city := model.City d; d_address := model.Address d;
           d_region := model.Region d; d_email := model.Email d |}];
     payment := payment t; items := items t |}.

Definition insert_payment (o : model.Order) (t : Tables) : Tables :=
  let p := model.OrderPayment o in
  {| orders := orders t; delivery := delivery t;
     payment := payment t ++
       [{| p_transaction := model.Transaction p; p_order_uid := model.OrderUID o;
           p_request_id := model.RequestID p; p_currency := model.Currency p;
           p_provider := model.Provider p; p_amount := model.Amount p;
           p_payment_dt := model.PaymentDt p; p_bank := model.Bank p;
           p_delivery_cost := model.DeliveryCost p;
           p_goods_total := model.GoodsTotal p;
           p_custom_fee := model.CustomFee p |}];
     items := items t |}.

Definition item_row (uid : string) (item : model.Item) : ItemRow :=
  {| i_chrt_id := model.ChrtID item; i_track_number := model.ItemTrackNumber item;
     i_price := model.Price item; i_rid := model.RID item;
     i_name := model.ItemName item; i_sale := model.Sale item;
     i_size := model.Size item; i_total_price := model.TotalPrice item;
     i_nm_id := model.NmID item; i_brand := model.Brand item;
     i_status := model.Status item; i_order_uid := uid |}.

Definition insert_item (uid : string) (item : model.Item) (t : Tables) : Tables :=
  {| orders := orders t; delivery := delivery t; payment := payment t;
     items := items t ++ [item_row uid item] |}.

(** The loop over [order.Items]; [i] is the index of the first item
    still to insert. *)
Fixpoint insert_items (faults : DbFaults) (uid : string) (i : nat)
  (its : list model.Item) : Tx unit :=
  match its with
  | [] => tx_ret tt
  | item :: rest =>
      let* _ := tx_Exec faults (OpInsertItem i) "failed to create item"
                  (insert_item uid item) in
      insert_items faults uid (S i) rest
  end.

(** [MakeOrder] between [Begin] and [Commit]. *)
Definition MakeOrder_tx (faults : DbFaults) (order : model.Order) : Tx unit :=
  let* found := tx_QueryRow faults OpCheckDuplicate "failed to check duplicate"
                  (order_exists (model.OrderUID order)) in
  if (found : bool) then tx_fail ErrOrderExists
  else
    let* _ := tx_Exec faults OpInsertOrder "failed to create order"
                (insert_order order) in
    let* _ := tx_Exec faults OpInsertDelivery "failed to create delivery"
                (insert_delivery order) in
    let* _ := tx_Exec faults OpInsertPayment "failed to create payment"
                (insert_payment order) in
    insert_items faults (model.OrderUID order) 0 (model.Items order).

(** [pool.Begin]: a transaction whose rows are the committed ones. *)
Definition Begin (faults : DbFaults) (db : Database) : error + Tables :=
  if faults OpBegin then inl PgError else inr db.

(** [tx.Commit]: the transaction's rows become the committed rows. *)
Definition Commit (faults : DbFaults) (db : Database) (tx : Tables)
  : error + Database :=
  if faults OpCommit then inl PgError else inr tx.

(** [tx.Rollback]: the transaction's rows are dropped; the committed
    rows are those from before [Begin]. *)
Definition Rollback (db : Database) (tx : Tables) : Database := db.

(** [MakeOrder]: the result and the committed rows afterwards.  The
    deferred [tx.Rollback] runs on every return; after a [Commit] that
    succeeded it does nothing. *)
Definition MakeOrder (faults : DbFaults) (order : model.Order) (db : Database)
  : option error * Database :=
  match Begin faults db with
  | inl err => (Some (Wrapf "cannot start transaction" err), db)
  | inr tx0 =>
      match MakeOrder_tx faults order tx0 with
      | (inl err, tx) => (Some err, Rollback db tx)
      | (inr _, tx) =>
          match Commit faults db tx with
          | inl err =>
              (Some (Wrapf "failed to commit transaction" err), Rollback db tx)
          | inr db' => (None, db')
          end
      end
  end.

Definition item_info (r : ItemRow) : model.ItemInfo :=
  {| model.InfoTrackNumber := i_track_number r; model.InfoName := i_name r;
     model.InfoPrice := i_price r; model.InfoSale := i_sale r;
     model.InfoSize := i_size r; model.InfoTotalPrice := i_total_price r;
     model.InfoBrand := i_brand r |}.

(** [ItemsInfo]: the item rows of one order, or an error; no row at all
    is [ErrOrderNotFound].  A failure while the rows are read (a scan,
    or [rows.Err]) is the one fault [OpRowsItems]. *)
Definition ItemsInfo (faults : DbFaults) (uid : string) (db : Database)
  : error + list model.ItemInfo :=
  if faults OpQueryItems then inl (Wrapf "failed to query items" PgError)
  else
    let rows := filter (λ r, i_order_uid r = uid) (items db) in
    if faults OpRowsItems then inl (Wrapf "row iteration error" PgError)
    else match rows with
         | [] => inl ErrOrderNotFound
         | _ => inr (item_info <$> rows)
         end.

(** The rows of [orders LEFT JOIN delivery LEFT JOIN payment]: an order
    without a matching row on the right is joined with NULLs ([None]). *)
Definition left_join {A B : Type} (match_ : A → B → bool) (l : list A)
  (r : list B) : list (A * option B) :=
  flat_map (λ a, match List.filter (match_ a) r with
                 | [] => [(a, None)]
                 | bs => (λ b, (a, Some b)) <$> bs
                 end) l.

Definition all_orders_rows (db : Database)
  : list (OrderRow * option DeliveryRow * option PaymentRow) :=
  left_join (λ od p, bool_decide (order_uid od.1 = p_order_uid p))
    (left_join (λ o d, bool_decide (order_uid o = d_order_uid d))
       (orders db) (delivery db))
    (payment db).

Definition item_of_info (info : model.ItemInfo) : model.Item :=
  {| model.ChrtID := 0; model.ItemTrackNumber := model.InfoTrackNumber info;
     model.Price := model.InfoPrice info; model.RID := "";
     model.ItemName := model.InfoName info; model.Sale := model.InfoSale info;
     model.Size := model.InfoSize info;
     model.TotalPrice := model.InfoTotalPrice info; model.NmID := 0;
     model.Brand := model.InfoBrand info; model.Status := 0 |}.

(** The order [GetAllOrders] builds from one row of the join and the
    order's items. *)
Definition scan_order (o : OrderRow) (d : DeliveryRow) (p : PaymentRow)
  (infos : list model.ItemInfo) : model.Order :=
  {| model.OrderUID := order_uid o; model.TrackNumber := track_number o;
     model.Entry := entry o;
     model.OrderDelivery :=
       {| model.Name := d_name d; model.Phone := d_phone d;
          model.Zip := d_zip d; model.City := d_city d;
          model.Address := d_address d; model.Region := d_region d;
          model.Email := d_email d |};
     model.OrderPayment :=
       {| model.Transaction := p_transaction p;
          model.RequestID := p_request_id p; model.Currency := p_currency p;
          model.Provider := p_provider p; model.Amount := p_amount p;
          model.PaymentDt := p_payment_dt p; model.Bank := p_bank p;
          model.DeliveryCost := p_delivery_cost p;
          model.GoodsTotal := p_goods_total p;
          model.CustomFee := p_custom_fee p |};
     model.Items := item_of_info <$> infos;
     model.Locale := locale o;
     model.InternalSignature := internal_signature o;
     model.CustomerID := customer_id o;
     model.DeliveryService := delivery_service o;
     model.Shardkey := shardkey o; model.SmID := sm_id o;
     model.DateCreated := date_created o; model.OofShard := oof_shard o |}.

(** The body of [GetAllOrders]'s loop over the rows: scanning NULLs
    into the plain fields of a row fails, and so does an order without
    items. *)
Fixpoint GetAllOrders_loop (faults : DbFaults) (db : Database)
  (rows : list (OrderRow * option DeliveryRow * option PaymentRow))
  (acc : gmap string model.Order) : error + gmap string model.Order :=
  match rows with
  | [] => inr acc
  | (o, Some d, Some p) :: rest =>
      match ItemsInfo faults (order_uid o) db with
      | inl err =>
          inl (Wrapf ("failed to load items for order " ++ order_uid o) err)
      | inr infos =>
          let order := scan_order o d p infos in
          GetAllOrders_loop faults db rest (<[model.OrderUID order := order]> acc)
      end
  | _ :: _ => inl (Wrapf "failed to scan order row" PgError)
  end.

Definition GetAllOrders (faults : DbFaults) (db : Database)
  : error + gmap string model.Order :=
  if faults OpQueryAllOrders
  then inl (Wrapf "failed to query all orders" PgError)
  else
    match GetAllOrders_loop faults db (all_orders_rows db) ∅ with
    | inl err => inl err
    | inr all =>
        if faults OpRowsAllOrders then inl (Wrapf "row iteration error" PgError)
        else inr all
    end.

End database.

(** ** encoding/json and the Kafka reader, as the handler uses them *)

(** [json.Unmarshal] into a [model.Order]: the order or an error. *)
Class Json : Type := { Unmarshal : list byte → error + model.Order }.

Module kafka.

(** The fields of [kafka.Message] the program reads, and its offset. *)
Record Message : Type := {
  Key : list byte;
  Value : list byte;
  Offset : Z }.

(** [kafka.Reader] belongs to the library kafka-go
    (github.com/segmentio/kafka-go), which is not among the sources; the
    three methods below follow the library's documentation of [Reader].
    [FetchMessage] hands out the next message of the topic and moves the
    reader past it.  [CommitMessages] commits the offset of a message to
    the reader's consumer group, and is an error for a reader without a
    [GroupID].  [ReadMessage] is [FetchMessage] followed, when the reader
    has a [GroupID], by the commit of the message just fetched: the
    offset is committed before the caller has seen the message.  With
    [CommitInterval] 0 a commit is made before [CommitMessages] returns.

    The state of a reader: its group, the messages it has handed out and
    the messages whose offsets it has committed, oldest first. *)
Record Reader : Type := {
  GroupID : string;
  fetched : list Message;
  committed : list Message }.

(** [next] is what the broker has for the reader: the next message of
    the topic, or a failure. *)
Definition FetchMessage (next : error + Message) (r : Reader)
  : (error + Message) * Reader :=
  match next with
  | inl err => (inl err, r)
  | inr msg =>
      (inr msg,
       {| GroupID := GroupID r; fetched := fetched r ++ [msg];
          committed := committed r |})
  end.

(** [fails] tells whether the commit fails at the broker. *)
Definition CommitMessages (fails : bool) (r : Reader) (msg : Message)
  : option error * Reader :=
  if bool_decide (GroupID r = "") then (Some KafkaError, r)
  else if fails then (Some KafkaError, r)
  else (None,
        {| GroupID := GroupID r; fetched := fetched r;
           committed := committed r ++ [msg] |}).

(** [commit_fails] tells whether the commit [ReadMessage] makes fails;
    the caller then gets the error and not the message. *)
Definition ReadMessage (next : error + Message) (commit_fails : bool)
  (r : Reader) : (error + Message) * Reader :=
  match FetchMessage next r with
  | (inl err, r1) => (inl err, r1)
  | (inr msg, r1) =>
      if bool_decide (GroupID r1 = "") then (inr msg, r1)
      else
        match CommitMessages commit_fails r1 msg with
        | (Some err, r2) => (inl err, r2)
        | (None, r2) => (inr msg, r2)
        end
  end.

End kafka.

(** ** package handler *)

Module handler.

Section handler.
Context `{Json}.

(** [HandleOrder]: the returned error, the store and the cache
    afterwards.  [faults] decides the store's failures during this call
    and [now] is the clock reading [Cache.Set] takes.  This is the call
    when no other goroutine changes the cache between its [Get] and its
    [Set]; [HandleOrder_among] below is the call beside the others. *)
Definition HandleOrder (faults : database.DbFaults) (msg : kafka.Message)
  (db : database.Database) (c : cache.Cache) (now : Z)
  : option error * database.Database * cache.Cache :=
  if bool_decide (length (kafka.Value msg) = 0%nat) then (None, db, c)
  else
    match Unmarshal (kafka.Value msg) with
    | inl err => (Some (Wrapf "failed to unmarshal json" err), db, c)
    | inr order =>
        if bool_decide (model.OrderUID order = "")
        then (Some (Errorf "empty order_uid"), db, c)
        else if (cache.Get c (model.OrderUID order)).2 then (None, db, c)
        else
          match database.MakeOrder faults order db with
          | (Some err, db') =>
              if errors_Is err ErrOrderExists then (None, db', c)
              else (Some (Wrapf "failed to save order to DB" err), db', c)
          | (None, db') =>
              (None, db', cache.Set_ c order cache.DefaultTTL now)
          end
    end.

(** [HandleOrder] beside the other goroutines.  [Get] and [Set] each take
    the cache's lock on their own and [MakeOrder] runs between them
    without it: [c] is the cache as [Get] finds it, [meanwhile] is what
    the lookup handlers and the reaper do to it until [Set] takes the
    lock, and the cache returned is the one the call last saw or left. *)
Definition HandleOrder_among (meanwhile : cache.Cache → cache.Cache)
  (faults : database.DbFaults) (msg : kafka.Message)
  (db : database.Database) (c : cache.Cache) (now : Z)
  : option error * database.Database * cache.Cache :=
  if bool_decide (length (kafka.Value msg) = 0%nat) then (None, db, c)
  else
    match Unmarshal (kafka.Value msg) with
    | inl err => (Some (Wrapf "failed to unmarshal json" err), db, c)
    | inr order =>
        if bool_decide (model.OrderUID order = "")
        then (Some (Errorf "empty order_uid"), db, c)
        else if (cache.Get c (model.OrderUID order)).2 then (None, db, c)
        else
          match database.MakeOrder faults order db with
          | (Some err, db') =>
              if errors_Is err ErrOrderExists then (None, db', c)
              else (Some (Wrapf "failed to save order to DB" err), db', c)
          | (None, db') =>
              (None, db',
               cache.Set_ (meanwhile c) order cache.DefaultTTL now)
          end
    end.

End handler.

End handler.

(** ** package server *)

Module server.

Record ItemResponse : Type := {
  Name : string; Price : Z; Size : string; TotalPrice : Z; Brand : string }.

(** The anonymous struct of the simplified response. *)
Record Simplified : Type := {
  OrderUID : string;
  Items : list ItemResponse }.

Record Request : Type := { Method : string; Path : string }.

(** What the handler writes: an order or a simplified response as JSON
    with status 200, or [http.Error] with a message and a status. *)
Inductive Response : Type :=
| SendOrder (order : model.Order)
| SendSimplified (r : Simplified)
| HttpError (msg : string) (status : Z).

Definition StatusBadRequest : Z := 400.
Definition StatusNotFound : Z := 404.
Definition StatusMethodNotAllowed : Z := 405.

(** The regular expression [^/order/([a-zA-Z0-9\-]+)$]: the captured
    group, if the path matches. *)
Definition is_id_char (a : ascii) : bool :=
  let n := nat_of_ascii a in
  ((97 <=? n) && (n <=? 122) || (65 <=? n) && (n <=? 90)
   || (48 <=? n) && (n <=? 57) || (n =? 45))%nat.

Fixpoint all_id_chars (s : string) : bool :=
  match s with
  | EmptyString => true
  | String a rest => is_id_char a && all_id_chars rest
  end.

Fixpoint strip_prefix (p s : string) : option string :=
  match p, s with
  | EmptyString, _ => Some s
  | String a p', String b s' =>
      if Ascii.eqb a b then strip_prefix p' s' else None
  | String _ _, EmptyString => None
  end.

Definition FindStringSubmatch (path : string) : option string :=
  match strip_prefix "/order/" path with
  | Some (String a rest) =>
      if all_id_chars (String a rest) then Some (String a rest) else None
  | _ => None
  end.

Definition item_response (item : model.ItemInfo) : ItemResponse :=
  {| Name := model.InfoName item; Price := model.InfoPrice item;
     Size := model.InfoSize item; TotalPrice := model.InfoTotalPrice item;
     Brand := model.InfoBrand item |}.

(** [orderToModel] converts a simplified response back into a
    [model.Order] for caching. *)
Definition orderToModel (r : Simplified) : model.Order :=
  let items :=
    (λ it, {| model.ChrtID := 0; model.ItemTrackNumber := "";
              model.Price := Price it; model.RID := "";
              model.ItemName := Name it; model.Sale := 0;
              model.Size := Size it; model.TotalPrice := TotalPrice it;
              model.NmID := 0; model.Brand := Brand it;
              model.Status := 0 |}) <$> Items r in
  {| model.OrderUID := OrderUID r; model.TrackNumber := "";
     model.Entry := ""; model.OrderDelivery := model.zeroDelivery;
     model.OrderPayment := model.zeroPayment; model.Items := items;
     model.Locale := ""; model.InternalSignature := "";
     model.CustomerID := ""; model.DeliveryService := "";
     model.Shardkey := ""; model.SmID := 0; model.DateCreated := "";
     model.OofShard := "" |}.

(** [orderAPIHandler]: the response written and the cache afterwards.
    Requests are served concurrently, and [Get], [ItemsInfo] and [Set]
    are three calls, the first and the last under the cache's lock, the
    query without it: [c] is the cache as [Get] finds it, [db] the store
    as the query finds it, [meanwhile] what the other goroutines (the
    consumer loop, other requests, the reaper) do to the cache until
    [Set] takes the lock, and the cache returned is the one the handler
    last saw or left. *)
Definition orderAPIHandler (faults : database.DbFaults) (r : Request)
  (db : database.Database) (c : cache.Cache)
  (meanwhile : cache.Cache → cache.Cache) (now : Z)
  : Response * cache.Cache :=
  if negb (bool_decide (Method r = "GET"))
  then (HttpError "Method not supported" StatusMethodNotAllowed, c)
  else
    match FindStringSubmatch (Path r) with
    | None => (HttpError "Invalid order ID" StatusBadRequest, c)
    | Some orderID =>
        match cache.Get c orderID with
        | (order, true) => (SendOrder order, c)
        | (_, false) =>
            match database.ItemsInfo faults orderID db with
            | inl _ => (HttpError "Order not found" StatusNotFound, c)
            | inr [] => (HttpError "Order not found" StatusNotFound, c)
            | inr items =>
                let response :=
                  {| OrderUID := orderID; Items := item_response <$> items |} in
                (SendSimplified response,
                 cache.Set_ (meanwhile c) (orderToModel response)
                   cache.DefaultTTL now)
            end
        end
    end.

End server.

(** ** package app *)

Module app.

Section app.
Context `{cache.Gob} `{Json}.

(** The body of [InitializeCache]'s loop over the orders of the store. *)
Definition InitializeCache_step (now : Z) (c : cache.Cache)
  (order : model.Order) : cache.Cache :=
  if (cache.Get c (model.OrderUID order)).2 then c
  else cache.Set_ c order cache.NoExpiration now.

(** [InitializeCache]: the cache it returns (its error is always nil).
    The map [GetAllOrders] returns is ranged over in the order
    [map_to_list] gives. *)
Definition InitializeCache (io : os.IoFaults) (faults : database.DbFaults)
  (fs : gmap string (list byte)) (db : database.Database) (now : Z)
  : cache.Cache :=
  let c := cache.New "order_cache.gob" in
  let c := (cache.LoadFromFile io c fs).2 in
  match database.GetAllOrders faults db with
  | inl _ => c
  | inr ordersFromDB =>
      foldl (InitializeCache_step now) c ((map_to_list ordersFromDB).*2)
  end.

(** [InitializeReader]: the reader for the topic of the orders, in the
    consumer group order-service-group and with [CommitInterval] 0; it
    has handed out and committed nothing yet.  The brokers, the topic
    and [MaxWait] play no part here. *)
Definition InitializeReader : kafka.Reader :=
  {| kafka.GroupID := "order-service-group"; kafka.fetched := [];
     kafka.committed := [] |}.

(** What the consumer loop works on: the store, which no other
    goroutine writes (the lookup handlers only query it); the cache as
    the loop last saw or left it; and the reader, which only the loop
    uses. *)
Record Consumer : Type := {
  db : database.Database;
  c : cache.Cache;
  reader : kafka.Reader }.

(** One turn of the loop, as its surroundings decide it: what the broker
    has for [ReadMessage] and whether the commit inside [ReadMessage]
    fails; what the other goroutines did to the cache since the loop last
    used it ([before]) and do between [HandleOrder]'s [Get] and its [Set]
    ([meanwhile]); the store's failures and the clock during the turn; and
    whether [CommitMessages] fails if the loop calls it. *)
Record Turn : Type := {
  next : error + kafka.Message;
  read_commit_fails : bool;
  before : cache.Cache → cache.Cache;
  meanwhile : cache.Cache → cache.Cache;
  faults : database.DbFaults;
  now : Z;
  commit_fails : bool }.

(** The body of [RunKafkaReader]'s loop. *)
Definition RunKafkaReader_turn (st : Consumer) (t : Turn) : Consumer :=
  match kafka.ReadMessage (next t) (read_commit_fails t) (reader st) with
  | (inl _, r1) => {| db := db st; c := c st; reader := r1 |}
  | (inr msg, r1) =>
      match handler.HandleOrder_among (meanwhile t) (faults t) msg (db st)
              (before t (c st)) (now t) with
      | (Some _, db', c') => {| db := db'; c := c'; reader := r1 |}
      | (None, db', c') =>
          {| db := db'; c := c';
             reader := (kafka.CommitMessages (commit_fails t) r1 msg).2 |}
      end
  end.

(** The loop never ends; this is its state after the given turns. *)
Definition RunKafkaReader (st : Consumer) (turns : list Turn) : Consumer :=
  foldl RunKafkaReader_turn st turns.


End app.

End app.

(** ** Stand-ins for the libraries, to run the model on concrete inputs

    The theorems below hold for every [cache.Gob] and every [Json].
    The ones given here make the model executable: a codec that writes
    the map's code number bit by bit, a decoder for the one-field
    documents that hold an order_uid member and nothing else, and a
    second decoder that also reads a member items with one empty
    object. *)

Module reference.

#[local] Instance Delivery_eq_dec : EqDecision model.Delivery.
Proof. solve_decision. Defined.

#[local] Instance Payment_eq_dec : EqDecision model.Payment.
Proof. solve_decision. Defined.

#[local] Instance Item_eq_dec : EqDecision model.Item.
Proof. solve_decision. Defined.

#[local] Instance Order_eq_dec : EqDecision model.Order.
Proof. solve_decision. Defined.

#[local] Instance cache_Item_eq_dec : EqDecision cache.Item.
Proof. solve_decision. Defined.

#[local] Instance Delivery_countable : Countable model.Delivery.
Proof.
  refine (inj_countable'
    (λ d, (model.Name d, model.Phone d, model.Zip d, model.City d,
           model.Address d, model.Region d, model.Email d))
    (λ '(a, b, c, d, e, f, g),
       {| model.Name := a; model.Phone := b; model.Zip := c; model.City := d;
          model.Address := e; model.Region := f; model.Email := g |}) _).
  by intros [].
Defined.

#[local] Instance Payment_countable : Countable model.Payment.
Proof.
  refine (inj_countable'
    (λ p, (model.Transaction p, model.RequestID p, model.Currency p,
           model.Provider p, model.Amount p, model.PaymentDt p, model.Bank p,
           model.DeliveryCost p, model.GoodsTotal p, model.CustomFee p))
    (λ '(a, b, c, d, e, f, g, h, i, j),
       {| model.Transaction := a; model.RequestID := b; model.Currency := c;
          model.Provider := d; model.Amount := e; model.PaymentDt := f;
          model.Bank := g; model.DeliveryCost := h; model.GoodsTotal := i;
          model.CustomFee := j |}) _).
  by intros [].
Defined.

#[local] Instance Item_countable : Countable model.Item.
Proof.
  refine (inj_countable'
    (λ x, (model.ChrtID x, model.ItemTrackNumber x, model.Price x, model.RID x,
           model.ItemName x, model.Sale x, model.Size x, model.TotalPrice x,
           model.NmID x, model.Brand x, model.Status x))
    (λ '(a, b, c, d, e, f, g, h, i, j, k),
       {| model.ChrtID := a; model.ItemTrackNumber := b; model.Price := c;
          model.RID := d; model.ItemName := e; model.Sale := f;
          model.Size := g; model.TotalPrice := h; model.NmID := i;
          model.Brand := j; model.Status := k |}) _).
  by intros [].
Defined.

#[local] Instance Order_countable : Countable model.Order.
Proof.
  refine (inj_countable'
    (λ o, (model.OrderUID o, model.TrackNumber o, model.Entry o,
           model.OrderDelivery o, model.OrderPayment o, model.Items o,
           model.Locale o, model.InternalSignature o, model.CustomerID o,
           model.DeliveryService o, model.Shardkey o, model.SmID o,
           model.DateCreated o, model.OofShard o))
    (λ '(a, b, c, d, e, f, g, h, i, j, k, l, m, n),
       {| model.OrderUID := a; model.TrackNumber := b; model.Entry := c;
          model.OrderDelivery := d; model.OrderPayment := e; model.Items := f;
          model.Locale := g; model.InternalSignature := h;
          model.CustomerID := i; model.DeliveryService := j;
          model.Shardkey := k; model.SmID := l; model.DateCreated := m;
          model.OofShard := n |}) _).
  by intros [].
Defined.

#[local] Instance cache_Item_countable : Countable cache.Item.
Proof.
  refine (inj_countable'
    (λ it, (cache.Order it, cache.Expiration it))
    (λ '(o, e), {| cache.Order := o; cache.Expiration := e |}) _).
  by intros [].
Defined.

(** A positive number, least significant bit first, as the characters
    0 and 1; the last character is the leading 1. *)
Fixpoint bytes_of_pos (p : positive) : list byte :=
  match p with
  | xH => [x31]
  | xO q => x30 :: bytes_of_pos q
  | xI q => x31 :: bytes_of_pos q
  end.

Fixpoint pos_of_bytes (bs : list byte) : option positive :=
  match bs with
  | [] => None
  | [x31] => Some xH
  | x30 :: rest => xO <$> pos_of_bytes rest
  | x31 :: rest => xI <$> pos_of_bytes rest
  | _ :: _ => None
  end.

Definition gob : cache.Gob :=
  {| cache.gob_encode := λ m, bytes_of_pos (encode m);
     cache.gob_decode := λ bs, pos_of_bytes bs ≫= decode |}.

(** The bytes up to the value of the order_uid member: an opening
    brace, the quoted member name, a colon and the opening quote of the
    value (the double quote is x22). *)
Definition uid_prefix : list byte :=
  ["{"%byte; x22] ++ list_byte_of_string "order_uid" ++ [x22; ":"%byte; x22].

Fixpoint strip_bytes (p s : list byte) : option (list byte) :=
  match p, s with
  | [], _ => Some s
  | a :: p', b :: s' => if Byte.eqb a b then strip_bytes p' s' else None
  | _ :: _, [] => None
  end.

(** The characters up to the closing quote, and what follows it; an
    escape is refused. *)
Fixpoint read_string (s : list byte) : option (list byte * list byte) :=
  match s with
  | [] => None
  | b :: rest =>
      if Byte.eqb b x22 then Some ([], rest)
      else if Byte.eqb b x5c then None
      else match read_string rest with
           | Some (str, tl) => Some (b :: str, tl)
           | None => None
           end
  end.

Definition order_with_uid (uid : string) : model.Order :=
  {| model.OrderUID := uid; model.TrackNumber := ""; model.Entry := "";
     model.OrderDelivery := model.zeroDelivery;
     model.OrderPayment := model.zeroPayment; model.Items := [];
     model.Locale := ""; model.InternalSignature := "";
     model.CustomerID := ""; model.DeliveryService := "";
     model.Shardkey := ""; model.SmID := 0; model.DateCreated := "";
     model.OofShard := "" |}.

Definition json : Json :=
  {| Unmarshal := λ data,
       match strip_bytes uid_prefix data with
       | Some rest =>
           match read_string rest with
           | Some (uid, ["}"%byte]) =>
               inr (order_with_uid (string_of_list_byte uid))
           | _ => inl JsonError
           end
       | None => inl JsonError
       end |}.

(** The document whose one member order_uid has the value [uid]. *)
Definition uid_document (uid : string) : list byte :=
  uid_prefix ++ list_byte_of_string uid ++ [x22; "}"%byte].

(** A second decoder, which also reads the documents with a member
    items that holds one empty object: the order then has one item, all
    of whose fields are zero. *)
Definition items_suffix : list byte :=
  [","%byte; x22] ++ list_byte_of_string "items"
    ++ [x22; ":"%byte; "["%byte; "{"%byte; "}"%byte; "]"%byte; "}"%byte].

Definition order_with_item (uid : string) : model.Order :=
  {| model.OrderUID := uid; model.TrackNumber := ""; model.Entry := "";
     model.OrderDelivery := model.zeroDelivery;
     model.OrderPayment := model.zeroPayment; model.Items := [model.zeroItem];
     model.Locale := ""; model.InternalSignature := "";
     model.CustomerID := ""; model.DeliveryService := "";
     model.Shardkey := ""; model.SmID := 0; model.DateCreated := "";
     model.OofShard := "" |}.

Definition json_items : Json :=
  {| Unmarshal := λ data,
       match strip_bytes uid_prefix data with
       | Some rest =>
           match read_string rest with
           | Some (uid, ["}"%byte]) =>
               inr (order_with_uid (string_of_list_byte uid))
           | Some (uid, tl) =>
               match strip_bytes items_suffix tl with
               | Some [] => inr (order_with_item (string_of_list_byte uid))
               | _ => inl JsonError
               end
           | None => inl JsonError
           end
       | None => inl JsonError
       end |}.

(** The document with the order_uid [uid] and one empty item. *)
Definition items_document (uid : string) : list byte :=
  uid_prefix ++ list_byte_of_string uid ++ [x22] ++ items_suffix.

End reference.

(** ** Vocabulary of the statements, and the data of the scenarios *)

(** The committed rows after a [MakeOrder] that went through: one row
    more in [orders], [delivery] and [payment], and one per item, in the
    order of [order.Items], in [items]. *)
Definition with_order (order : model.Order) (t : database.Tables)
  : database.Tables :=
  {| database.orders := database.orders (database.insert_order order t);
     database.delivery := database.delivery (database.insert_delivery order t);
     database.payment := database.payment (database.insert_payment order t);
     database.items :=
       database.items t ++
         (database.item_row (model.OrderUID order) <$> model.Items order) |}.

(** A store none of whose statements fails. *)
Definition healthy (faults : database.DbFaults) : Prop :=
  ∀ op, faults op = false.

(** A failure reported by the driver, as [MakeOrder] wraps it. *)
Definition driver_error (err : error) : Prop :=
  ∃ msg, err = Wrapf msg PgError.

(** An iteration of [InitializeCache]'s loop with the reaper running
    beside it: a sweep at the given time, if any, comes before the
    iteration's [Get]. *)
Definition InitializeCache_step_swept (now : Z) (c : cache.Cache)
  (so : option Z * model.Order) : cache.Cache :=
  let c := match so.1 with
           | Some t => cache.DeleteExpired c t
           | None => c
           end in
  app.InitializeCache_step now c so.2.

(** An order that carries only an identifier, and a clock reading
    (2023-11-14T22:13:20Z). *)
Definition sample_order : model.Order :=
  reference.order_with_uid "b563feb7b2b84b6test".

Definition sample_now : Z := 1700000000 * Second.

(** A cache holding that order under the default TTL. *)
Definition sample_cache : cache.Cache :=
  cache.Set_ (cache.New "order_cache.gob") sample_order cache.DefaultTTL sample_now.

(** The snapshot file of an earlier run, holding one permanent entry. *)
Definition earlier_snapshot : list byte :=
  @cache.gob_encode reference.gob
    (cache.items (cache.Set_ (cache.New "order_cache.gob")
                    (reference.order_with_uid "a1") cache.NoExpiration 0)).

(** The store with no rows, and a store whose payment statement fails. *)
Definition empty_db : database.Database :=
  {| database.orders := []; database.delivery := [];
     database.payment := []; database.items := [] |}.

Definition payment_fails : database.DbFaults :=
  λ op, match op with database.OpInsertPayment => true | _ => false end.

(** The consumer at start-up over the empty store; a message whose
    payload is a lone opening brace and one whose payload is the
    document of [sample_order]; a turn of the loop that receives a
    message while the store and the reader work and the other goroutines
    leave the cache alone. *)
Definition fresh_consumer : app.Consumer :=
  {| app.db := empty_db; app.c := cache.New "order_cache.gob";
     app.reader := app.InitializeReader |}.

Definition malformed_message : kafka.Message :=
  {| kafka.Key := []; kafka.Value := ["{"%byte]; kafka.Offset := 42 |}.

Definition sample_message : kafka.Message :=
  {| kafka.Key := [];
     kafka.Value := reference.uid_document "b563feb7b2b84b6test";
     kafka.Offset := 7 |}.

Definition turn_with (msg : kafka.Message) : app.Turn :=
  {| app.next := inr msg; app.read_commit_fails := false;
     app.before := λ c, c; app.meanwhile := λ c, c;
     app.faults := database.no_db_faults;
     app.now := sample_now; app.commit_fails := false |}.

(** A full order with one item, and the store that holds it. *)
Definition sample_item : model.Item :=
  {| model.ChrtID := 9934930; model.ItemTrackNumber := "WBILMTESTTRACK";
     model.Price := 453; model.RID := "ab4219087a764ae0btest";
     model.ItemName := "Mascaras"; model.Sale := 30; model.Size := "0";
     model.TotalPrice := 317; model.NmID := 2389212;
     model.Brand := "Vivienne Sabo"; model.Status := 202 |}.

Definition stored_order : model.Order :=
  {| model.OrderUID := "b563feb7b2b84b6test";
     model.TrackNumber := "WBILMTESTTRACK"; model.Entry := "WBIL";
     model.OrderDelivery := model.zeroDelivery;
     model.OrderPayment := model.zeroPayment; model.Items := [sample_item];
     model.Locale := "en"; model.InternalSignature := "";
     model.CustomerID := "test"; model.DeliveryService := "meest";
     model.Shardkey := "9"; model.SmID := 99;
     model.DateCreated := "2021-11-26T06:22:19Z"; model.OofShard := "1" |}.

Definition sample_db : database.Database := with_order stored_order empty_db.

(** An order with one item whose id holds an underscore. *)
Definition underscore_order : model.Order :=
  {| model.OrderUID := "order_1";
     model.TrackNumber := "WBILMTESTTRACK"; model.Entry := "WBIL";
     model.OrderDelivery := model.zeroDelivery;
     model.OrderPayment := model.zeroPayment; model.Items := [sample_item];
     model.Locale := "en"; model.InternalSignature := "";
     model.CustomerID := "test"; model.DeliveryService := "meest";
     model.Shardkey := "9"; model.SmID := 99;
     model.DateCreated := "2021-11-26T06:22:19Z"; model.OofShard := "1" |}.

(** A snapshot holding the stored order, due two minutes after
    [sample_now]. *)
Definition snapshot_items : gmap string cache.Item :=
  cache.items (cache.Set_ (cache.New "order_cache.gob") stored_order
                 (2 * Minute) sample_now).

(** What [GetAllOrders] gives back for an order [MakeOrder] stored:
    the order with, in every item, only the seven columns [ItemsInfo]
    selects. *)
Definition scanned (order : model.Order) : model.Order :=
  {| model.OrderUID := model.OrderUID order;
     model.TrackNumber := model.TrackNumber order;
     model.Entry := model.Entry order;
     model.OrderDelivery := model.OrderDelivery order;
     model.OrderPayment := model.OrderPayment order;
     model.Items :=
       (λ it, {| model.ChrtID := 0;
                 model.ItemTrackNumber := model.ItemTrackNumber it;
                 model.Price := model.Price it; model.RID := "";
                 model.ItemName := model.ItemName it;
                 model.Sale := model.Sale it; model.Size := model.Size it;
                 model.TotalPrice := model.TotalPrice it; model.NmID := 0;
                 model.Brand := model.Brand it; model.Status := 0 |})
         <$> model.Items order;
     model.Locale := model.Locale order;
     model.InternalSignature := model.InternalSignature order;
     model.CustomerID := model.CustomerID order;
     model.DeliveryService := model.DeliveryService order;
     model.Shardkey := model.Shardkey order; model.SmID := model.SmID order;
     model.DateCreated := model.DateCreated order;
     model.OofShard := model.OofShard order |}.

(** The ids of the orders a store holds, row by row. *)
Definition stored_ids (db : database.Database) : list string :=
  database.order_uid <$> database.orders db.

(** A store whose begin statement fails. *)
Definition begin_fails : database.DbFaults :=
  λ op, match op with database.OpBegin => true | _ => false end.

(** The errors [HandleOrder] returns. *)
Definition HandleOrder_error (err : error) : Prop :=
  (∃ cause, err = Wrapf "failed to unmarshal json" cause)
  ∨ err = Errorf "empty order_uid"
  ∨ (∃ cause, err = Wrapf "failed to save order to DB" cause
              ∧ driver_error cause).

(** A message without payload, a message whose document has an empty
    order_uid, and a turn of the loop that receives a message while the
    store cannot begin a transaction. *)
Definition empty_message : kafka.Message :=
  {| kafka.Key := []; kafka.Value := []; kafka.Offset := 1 |}.

Definition no_uid_message : kafka.Message :=
  {| kafka.Key := []; kafka.Value := reference.uid_document "";
     kafka.Offset := 2 |}.

Definition failing_turn_with (msg : kafka.Message) : app.Turn :=
  {| app.next := inr msg; app.read_commit_fails := false;
     app.before := λ c, c; app.meanwhile := λ c, c;
     app.faults := begin_fails;
     app.now := sample_now; app.commit_fails := false |}.

(** The item rows the store holds for an order id, and what a lookup
    makes of them: the simplified response it sends and the order it
    sets in the cache.  Both carry the id and, for every row in turn,
    the name, the price, the size, the total price and the brand; every
    other field of the order and of its items is zero. *)
Definition item_rows (key : string) (db : database.Database)
  : list database.ItemRow :=
  filter (λ r, database.i_order_uid r = key) (database.items db).

Definition projected_response (key : string) (rows : list database.ItemRow)
  : server.Simplified :=
  {| server.OrderUID := key;
     server.Items :=
       (λ r, {| server.Name := database.i_name r;
                server.Price := database.i_price r;
                server.Size := database.i_size r;
                server.TotalPrice := database.i_total_price r;
                server.Brand := database.i_brand r |}) <$> rows |}.

Definition projected_order (key : string) (rows : list database.ItemRow)
  : model.Order :=
  {| model.OrderUID := key; model.TrackNumber := ""; model.Entry := "";
     model.OrderDelivery := model.zeroDelivery;
     model.OrderPayment := model.zeroPayment;
     model.Items :=
       (λ r, {| model.ChrtID := 0; model.ItemTrackNumber := "";
                model.Price := database.i_price r; model.RID := "";
                model.ItemName := database.i_name r; model.Sale := 0;
                model.Size := database.i_size r;
                model.TotalPrice := database.i_total_price r;
                model.NmID := 0; model.Brand := database.i_brand r;
                model.Status := 0 |}) <$> rows;
     model.Locale := ""; model.InternalSignature := "";
     model.CustomerID := ""; model.DeliveryService := "";
     model.Shardkey := ""; model.SmID := 0; model.DateCreated := "";
     model.OofShard := "" |}.

(** A path the route of the lookup accepts for [key]: [/order/]
    followed by the key, which is not empty and made of letters, digits
    and hyphens. *)
Definition route_accepts (path key : string) : Prop :=
  path = String.append "/order/" key ∧ key ≠ ""
  ∧ server.all_id_chars key = true.

(** What the other goroutines do to the cache, as far as the keys go:
    [f] adds no key but ids of orders the store [db] holds, and [f]
    removes no key. *)
Definition adds_only_stored (db : database.Database)
  (f : cache.Cache → cache.Cache) : Prop :=
  ∀ c k, is_Some (cache.items (f c) !! k) →
         is_Some (cache.items c !! k) ∨ k ∈ stored_ids db.

Definition keeps_keys (f : cache.Cache → cache.Cache) : Prop :=
  ∀ c k, is_Some (cache.items c !! k) → is_Some (cache.items (f c) !! k).

(** Throughout the turns of the loop, the other goroutines add to the
    cache only ids of orders the store holds by then: before a turn's
    [Get] with respect to the store before the turn, and between its
    [Get] and its [Set] with respect to the store after the turn's
    [MakeOrder]. *)
Fixpoint others_add_only_stored `{Json} (st : app.Consumer)
  (turns : list app.Turn) : Prop :=
  match turns with
  | [] => True
  | t :: turns =>
      adds_only_stored (app.db st) (app.before t)
      ∧ adds_only_stored (app.db (app.RunKafkaReader_turn st t))
          (app.meanwhile t)
      ∧ others_add_only_stored (app.RunKafkaReader_turn st t) turns
  end.

(** A turn of the loop that receives [msg] after a sweep of the reaper
    at [tick], and during which a request [r] for an order of the store
    [db] is served, from its [Get] to its [Set], between [HandleOrder]'s
    [Get] and its [Set]. *)
Definition turn_among (msg : kafka.Message) (tick : Z) (r : server.Request)
  (db : database.Database) : app.Turn :=
  {| app.next := inr msg; app.read_commit_fails := false;
     app.before := λ c, cache.DeleteExpired c tick;
     app.meanwhile :=
       λ c, (server.orderAPIHandler database.no_db_faults r db c (λ c, c)
               sample_now).2;
     app.faults := database.no_db_faults;
     app.now := sample_now; app.commit_fails := false |}.

(** * Properties *)

(** ** Clock arithmetic and the map of the cache *)

Lemma wrap64_in_range (z : Z) :
  min_int64 ≤ z ≤ max_int64 → wrap64 z = z.
Proof.
  unfold min_int64, max_int64, wrap64. intros Hz.
  rewrite Z.mod_small by lia. lia.
Qed.

Lemma Add_UnixNano_in_range (now d : Z) :
  min_int64 ≤ now + d ≤ max_int64 → Add_UnixNano now d = now + d.
Proof. apply wrap64_in_range. Qed.

Lemma with_items_items (c : cache.Cache) (m : gmap string cache.Item) :
  cache.items (cache.with_items c m) = m.
Proof. reflexivity. Qed.

Lemma with_items_twice (c : cache.Cache) (m1 m2 : gmap string cache.Item) :
  cache.with_items (cache.with_items c m1) m2 = cache.with_items c m2.
Proof. reflexivity. Qed.

Lemma with_items_same (c : cache.Cache) :
  cache.with_items c (cache.items c) = c.
Proof. by destruct c. Qed.

(** A sweep over any duplicate-free enumeration [l] of entries removes
    from [m0] the keys whose entry in [l] is due, and nothing else. *)
Lemma DeleteExpired_fold_lookup (now : Z) (l : list (string * cache.Item))
  (m0 : gmap string cache.Item) (k : string) :
  NoDup l.*1 →
  foldl (cache.DeleteExpired_step now) m0 l !! k =
    match (list_to_map l : gmap string cache.Item) !! k with
    | Some v =>
        if (cache.Expiration v >? 0) && (now >? cache.Expiration v)
        then None else m0 !! k
    | None => m0 !! k
    end.
Proof.
  revert m0. induction l as [|[k' v'] l IH]; intros m0 Hnd.
  - simpl. by rewrite lookup_empty.
  - rewrite fmap_cons in Hnd. apply NoDup_cons in Hnd as [Hk' Hnd].
    cbn [foldl list_to_map foldr]. rewrite IH by done. simpl in Hk'.
    unfold cache.DeleteExpired_step, uncurry, fst, snd.
    destruct (decide (k' = k)) as [->|Hne].
    + rewrite lookup_insert_eq.
      rewrite (not_elem_of_list_to_map_1 _ _ Hk').
      destruct (_ && _); [apply lookup_delete_eq | done].
    + rewrite lookup_insert_ne by done.
      destruct ((cache.Expiration v' >? 0) && (now >? cache.Expiration v'));
        [rewrite lookup_delete_ne by done|]; done.
Qed.

(** What a reader of the map finds after one sweep of the reaper. *)
Lemma DeleteExpired_lookup (c : cache.Cache) (now : Z) (k : string) :
  cache.items (cache.DeleteExpired c now) !! k =
    match cache.items c !! k with
    | Some v =>
        if (cache.Expiration v >? 0) && (now >? cache.Expiration v)
        then None else Some v
    | None => None
    end.
Proof.
  unfold cache.DeleteExpired. rewrite with_items_items.
  rewrite DeleteExpired_fold_lookup by apply NoDup_fst_map_to_list.
  rewrite list_to_map_to_list.
  destruct (cache.items c !! k) as [v|] eqn:Hk; [|done].
  by destruct (_ && _).
Qed.

(** The sweep and [IsExpired] agree on entries whose expiration is not
    negative. *)
Lemma sweep_condition_IsExpired (item : cache.Item) (now : Z) :
  0 ≤ cache.Expiration item →
  (cache.Expiration item >? 0) && (now >? cache.Expiration item) =
    cache.IsExpired item now.
Proof.
  intros Hpos. unfold cache.IsExpired.
  destruct (Z.eqb_spec (cache.Expiration item) 0) as [->|Hne].
  - reflexivity.
  - replace (cache.Expiration item >? 0) with true by (symmetry; lia). done.
Qed.

Lemma copy_fold_lookup (l : list (string * cache.Item))
  (acc : gmap string cache.Item) (k : string) :
  NoDup l.*1 →
  foldl (λ acc kv, <[kv.1 := kv.2]> acc) acc l !! k =
    match (list_to_map l : gmap string cache.Item) !! k with
    | Some v => Some v
    | None => acc !! k
    end.
Proof.
  revert acc. induction l as [|[k' v'] l IH]; intros acc Hnd; simpl.
  - by rewrite lookup_empty.
  - apply NoDup_cons in Hnd as [Hk' Hnd]. rewrite IH by done.
    destruct (decide (k' = k)) as [->|Hne].
    + rewrite !lookup_insert_eq.
      by rewrite (not_elem_of_list_to_map_1 _ _ Hk').
    + rewrite !lookup_insert_ne by done. done.
Qed.

(** The copy taken for a snapshot is the whole map, due entries too. *)
Lemma copy_items_id (m : gmap string cache.Item) : cache.copy_items m = m.
Proof.
  apply map_eq. intros k. unfold cache.copy_items.
  rewrite copy_fold_lookup by apply NoDup_fst_map_to_list.
  rewrite list_to_map_to_list, lookup_empty.
  by destruct (m !! k).
Qed.

Lemma Get_lookup (c : cache.Cache) (k : string) :
  cache.Get c k =
    match cache.items c !! k with
    | Some item => (cache.Order item, true)
    | None => (model.zeroOrder, false)
    end.
Proof. unfold cache.Get. by destruct (cache.items c !! k). Qed.

Lemma Set_lookup_eq (c : cache.Cache) (order : model.Order) (d now : Z) :
  cache.items (cache.Set_ c order d now) !! model.OrderUID order =
    Some {| cache.Order := order;
            cache.Expiration := if d >? 0 then Add_UnixNano now d else 0 |}.
Proof. unfold cache.Set_. rewrite with_items_items. apply lookup_insert_eq. Qed.

Lemma Set_lookup_ne (c : cache.Cache) (order : model.Order) (d now : Z)
  (k : string) :
  k ≠ model.OrderUID order →
  cache.items (cache.Set_ c order d now) !! k = cache.items c !! k.
Proof.
  intros Hne. unfold cache.Set_. rewrite with_items_items.
  by apply lookup_insert_ne.
Qed.

Lemma Get_after_Set (c : cache.Cache) (order : model.Order) (d now : Z) :
  cache.Get (cache.Set_ c order d now) (model.OrderUID order) = (order, true).
Proof. by rewrite Get_lookup, Set_lookup_eq. Qed.

(** ** The expiration predicate and [Get] *)

(** C1 (the code departs from the claim): an entry set with the default
    TTL of ten minutes is still returned by [Get], with found = true, one
    nanosecond and any later time after it is due, as long as no sweep of
    the reaper removed it: [Get] takes no clock reading and never
    evaluates [IsExpired], which at that time answers true. *)
Theorem Get_returns_entry_past_its_expiration :
  let c := cache.Set_ (cache.New "order_cache.gob") sample_order
             cache.DefaultTTL sample_now in
  let due := sample_now + cache.DefaultTTL in
  cache.items c !! "b563feb7b2b84b6test" =
    Some {| cache.Order := sample_order; cache.Expiration := due |}
  ∧ cache.IsExpired
      {| cache.Order := sample_order; cache.Expiration := due |} (due + 1) = true
  ∧ cache.Get c "b563feb7b2b84b6test" = (sample_order, true).
Proof.
  cbv zeta. split; [|split].
  - change "b563feb7b2b84b6test" with (model.OrderUID sample_order).
    rewrite Set_lookup_eq. reflexivity.
  - reflexivity.
  - change "b563feb7b2b84b6test" with (model.OrderUID sample_order).
    rewrite Get_lookup, Set_lookup_eq. reflexivity.
Qed.

(** Within the TTL the entry is found whether or not the reaper has
    run: a sweep at a time up to the expiration keeps it. *)
Lemma Get_within_ttl (c : cache.Cache) (order : model.Order) (d now t : Z) :
  0 < d → min_int64 ≤ now + d ≤ max_int64 → t ≤ now + d →
  cache.Get (cache.DeleteExpired (cache.Set_ c order d now) t)
    (model.OrderUID order) = (order, true).
Proof.
  intros Hd Hr Ht. rewrite Get_lookup, DeleteExpired_lookup, Set_lookup_eq.
  simpl. replace (d >? 0) with true by (symmetry; lia).
  rewrite Add_UnixNano_in_range by done.
  replace (t >? now + d) with false by (symmetry; lia).
  by rewrite andb_false_r.
Qed.

(** ** [Set] *)

(** C8: [Set] binds the order's key to the order, overwriting what was
    there and leaving every other key alone; a positive duration stores
    the clock reading plus the duration (an [int64] of nanoseconds, so as
    long as the sum is one), a zero duration or [NoExpiration] stores no
    expiration, and such an entry is never due and survives every sweep;
    the result is the new cache only, and setting again with the same
    arguments, or after any earlier [Set] of the same order, changes
    nothing more. *)
Theorem Set_inserts_or_overwrites (c : cache.Cache) (order : model.Order)
  (d now : Z) :
  let c' := cache.Set_ c order d now in
  (∃ e, cache.items c' !! model.OrderUID order =
          Some {| cache.Order := order; cache.Expiration := e |}
        ∧ (0 < d → min_int64 ≤ now + d ≤ max_int64 → e = now + d)
        ∧ (d = 0 ∨ d = cache.NoExpiration →
           e = 0
           ∧ (∀ t, cache.IsExpired
                     {| cache.Order := order; cache.Expiration := e |} t = false)
           ∧ (∀ t, cache.items (cache.DeleteExpired c' t) !! model.OrderUID order =
                     Some {| cache.Order := order; cache.Expiration := e |})))
  ∧ (∀ k, k ≠ model.OrderUID order → cache.items c' !! k = cache.items c !! k)
  ∧ cache.Set_ c' order d now = c'
  ∧ (∀ d0 now0, cache.Set_ (cache.Set_ c order d0 now0) order d now = c').
Proof.
  cbv zeta. split; [|split; [|split]].
  - eexists. split; [apply Set_lookup_eq|]. split.
    + intros Hd Hr. replace (d >? 0) with true by (symmetry; lia).
      by apply Add_UnixNano_in_range.
    + intros Hd.
      assert ((d >? 0) = false) as ->
        by (destruct Hd as [->| ->]; reflexivity).
      split; [done|]. split; [done|].
      intros t. rewrite DeleteExpired_lookup, Set_lookup_eq.
      assert ((d >? 0) = false) as ->
        by (destruct Hd as [->| ->]; reflexivity).
      reflexivity.
  - intros k Hk. by apply Set_lookup_ne.
  - unfold cache.Set_. rewrite with_items_twice, with_items_items.
    by rewrite insert_insert_eq.
  - intros d0 now0. unfold cache.Set_.
    rewrite with_items_twice, with_items_items.
    by rewrite insert_insert_eq.
Qed.

(** ** Snapshots: [SaveToFile] and [LoadFromFile] *)

Section persistence_properties.
Context `{G : cache.Gob}.

Lemma SaveToFile_ok (io : os.IoFaults) (c : cache.Cache)
  (fs : gmap string (list byte)) :
  io os.OpCreate = false → io os.OpWrite = false →
  cache.SaveToFile io c fs =
    (None, <[cache.cacheFile c := cache.gob_encode (cache.items c)]> fs).
Proof.
  intros Hc Hw. unfold cache.SaveToFile, os.Create.
  rewrite Hc, Hw, copy_items_id. by rewrite insert_insert_eq.
Qed.

Lemma run_SaveToFile_calls (c : cache.Cache) (fs : gmap string (list byte)) :
  os.run_calls (cache.SaveToFile_calls c) fs =
    <[cache.cacheFile c := cache.gob_encode (cache.items c)]> fs.
Proof.
  unfold os.run_calls, cache.SaveToFile_calls. cbn [foldl os.apply_call].
  rewrite lookup_insert_eq, copy_items_id. cbn [default app].
  by rewrite insert_insert_eq.
Qed.

Lemma crash_after_create (c : cache.Cache) (fs : gmap string (list byte)) :
  os.crash_after 1 (cache.SaveToFile_calls c) fs = <[cache.cacheFile c := []]> fs.
Proof. reflexivity. Qed.

Lemma LoadFromFile_ok (io : os.IoFaults) (c : cache.Cache)
  (fs : gmap string (list byte)) (data : list byte)
  (m : gmap string cache.Item) :
  io os.OpOpen = false → io os.OpRead = false →
  fs !! cache.cacheFile c = Some data → cache.gob_decode data = Some m →
  cache.LoadFromFile io c fs = (None, cache.with_items c m).
Proof.
  intros Ho Hr Hf Hd. unfold cache.LoadFromFile, os.Open.
  by rewrite Ho, Hf, Hr, Hd.
Qed.

(** C10: [LoadFromFile] either fails and returns the cache exactly as
    it was, which happens when the file cannot be opened (it is missing,
    or the open fails) or its contents cannot be read or decoded; or it
    succeeds, and then the file was opened and wholly decoded and the
    decoded map replaces the old one. *)
Theorem LoadFromFile_all_or_nothing (io : os.IoFaults) (c : cache.Cache)
  (fs : gmap string (list byte)) :
  match cache.LoadFromFile io c fs with
  | (Some err, c') =>
      c' = c
      ∧ (io os.OpOpen = true ∨ fs !! cache.cacheFile c = None
         ∨ io os.OpRead = true
         ∨ ∃ data, fs !! cache.cacheFile c = Some data
                   ∧ cache.gob_decode data = None)
  | (None, c') =>
      ∃ data m, fs !! cache.cacheFile c = Some data
                ∧ cache.gob_decode data = Some m
                ∧ c' = cache.with_items c m
  end.
Proof.
  unfold cache.LoadFromFile, os.Open.
  destruct (io os.OpOpen) eqn:Ho; [by auto|].
  destruct (fs !! cache.cacheFile c) as [data|] eqn:Hf; [|by auto].
  destruct (io os.OpRead) eqn:Hr; [by auto 6|].
  destruct (cache.gob_decode data) as [m|] eqn:Hd.
  - by exists data, m.
  - split; [done|]. do 3 right. by exists data.
Qed.

(** C7: when the file can be created, written, opened and read, and
    gob decodes what it encoded of this map, saving a cache and loading
    the file into a cache of the same file name (a fresh one from [New]
    in particular) gives a map equal to the saved one: the same keys with
    the same orders and the same expiration times, so also the same
    entries among those not yet due at any reload time [t]. *)
Theorem snapshot_round_trip (io1 io2 : os.IoFaults) (c c2 : cache.Cache)
  (fs : gmap string (list byte)) :
  io1 os.OpCreate = false → io1 os.OpWrite = false →
  io2 os.OpOpen = false → io2 os.OpRead = false →
  cache.gob_decode (cache.gob_encode (cache.items c)) = Some (cache.items c) →
  cache.cacheFile c2 = cache.cacheFile c →
  ∃ fs1 c',
    cache.SaveToFile io1 c fs = (None, fs1)
    ∧ cache.LoadFromFile io2 c2 fs1 = (None, c')
    ∧ cache.items c' = cache.items c
    ∧ ∀ t k item,
        cache.items c' !! k = Some item ∧ cache.IsExpired item t = false
        ↔ cache.items c !! k = Some item ∧ cache.IsExpired item t = false.
Proof.
  intros Hc Hw Ho Hr Hrt Hfile.
  eexists _, _. split; [by apply SaveToFile_ok|]. split.
  - eapply LoadFromFile_ok; [done..| |exact Hrt].
    rewrite Hfile. apply lookup_insert_eq.
  - split; [done|]. intros t k item. by rewrite with_items_items.
Qed.

(** C6 as the code has it: when the file can be created and written,
    [SaveToFile] leaves at the cache's path the encoding of the whole
    map as it was at the call, due entries included, and touches no other
    path.  It does so with two calls on the target itself, a create that
    truncates it and the encoder's write; there is no temporary file and
    no rename, and a process that dies between the two calls leaves an
    empty file at the target. *)
Theorem SaveToFile_writes_target_in_place (io : os.IoFaults) (c : cache.Cache)
  (fs : gmap string (list byte)) :
  io os.OpCreate = false → io os.OpWrite = false →
  cache.SaveToFile io c fs =
    (None, <[cache.cacheFile c := cache.gob_encode (cache.items c)]> fs)
  ∧ cache.SaveToFile_calls c =
      [os.CallCreate (cache.cacheFile c);
       os.CallWrite (cache.cacheFile c) (cache.gob_encode (cache.items c))]
  ∧ (cache.SaveToFile io c fs).2 = os.run_calls (cache.SaveToFile_calls c) fs
  ∧ os.crash_after 1 (cache.SaveToFile_calls c) fs !! cache.cacheFile c = Some [].
Proof.
  intros Hc Hw. split; [by apply SaveToFile_ok|]. split; [|split].
  - unfold cache.SaveToFile_calls. by rewrite copy_items_id.
  - by rewrite SaveToFile_ok, run_SaveToFile_calls.
  - rewrite crash_after_create. apply lookup_insert_eq.
Qed.

End persistence_properties.

(** The stand-in codec decodes what it encodes. *)
Lemma pos_of_bytes_of_pos (p : positive) :
  reference.pos_of_bytes (reference.bytes_of_pos p) = Some p.
Proof.
  induction p as [q IH|q IH|]; [| |done].
  - cbn [reference.bytes_of_pos].
    destruct (reference.bytes_of_pos q) as [|b bs] eqn:Hq; [by destruct q|].
    cbn [reference.pos_of_bytes]. cbn [reference.pos_of_bytes] in IH.
    by rewrite IH.
  - cbn [reference.bytes_of_pos reference.pos_of_bytes]. by rewrite IH.
Qed.

Lemma bytes_of_pos_nonempty (p : positive) : reference.bytes_of_pos p ≠ [].
Proof. by destruct p. Qed.

Lemma reference_gob_round_trip (m : gmap string cache.Item) :
  @cache.gob_decode reference.gob (@cache.gob_encode reference.gob m) = Some m.
Proof.
  unfold reference.gob, cache.gob_decode, cache.gob_encode.
  rewrite pos_of_bytes_of_pos. cbn [mbind option_bind]. apply decode_encode.
Qed.

(** The round trip on [sample_cache], through the stand-in codec and
    an empty file system, into a fresh cache. *)
Lemma snapshot_round_trip_witness :
  ∃ fs1 c',
    @cache.SaveToFile reference.gob os.no_io_faults sample_cache ∅ = (None, fs1)
    ∧ @cache.LoadFromFile reference.gob os.no_io_faults
        (cache.New "order_cache.gob") fs1 = (None, c')
    ∧ cache.items c' = cache.items sample_cache
    ∧ ∀ t k item,
        cache.items c' !! k = Some item ∧ cache.IsExpired item t = false
        ↔ cache.items sample_cache !! k = Some item
          ∧ cache.IsExpired item t = false.
Proof.
  apply (@snapshot_round_trip reference.gob os.no_io_faults os.no_io_faults
           sample_cache (cache.New "order_cache.gob") ∅);
    [reflexivity | reflexivity | reflexivity | reflexivity
    | apply reference_gob_round_trip | reflexivity].
Defined.

(** [SaveToFile] of [sample_cache] over the snapshot of an earlier
    run. *)
Lemma SaveToFile_writes_target_in_place_witness :
  @cache.SaveToFile reference.gob os.no_io_faults sample_cache
     {[ "order_cache.gob" := earlier_snapshot ]} =
    (None, <[cache.cacheFile sample_cache :=
               @cache.gob_encode reference.gob (cache.items sample_cache)]>
             {[ "order_cache.gob" := earlier_snapshot ]})
  ∧ @cache.SaveToFile_calls reference.gob sample_cache =
      [os.CallCreate (cache.cacheFile sample_cache);
       os.CallWrite (cache.cacheFile sample_cache)
         (@cache.gob_encode reference.gob (cache.items sample_cache))]
  ∧ (@cache.SaveToFile reference.gob os.no_io_faults sample_cache
       {[ "order_cache.gob" := earlier_snapshot ]}).2 =
      os.run_calls (@cache.SaveToFile_calls reference.gob sample_cache)
        {[ "order_cache.gob" := earlier_snapshot ]}
  ∧ os.crash_after 1 (@cache.SaveToFile_calls reference.gob sample_cache)
      {[ "order_cache.gob" := earlier_snapshot ]} !! cache.cacheFile sample_cache
    = Some [].
Proof.
  apply (@SaveToFile_writes_target_in_place reference.gob os.no_io_faults
           sample_cache {[ "order_cache.gob" := earlier_snapshot ]});
    reflexivity.
Defined.

(** C6 as stated fails: with the snapshot of an earlier run at the
    target path, a [SaveToFile] that is interrupted after its first call
    leaves the target holding neither the earlier snapshot nor the new
    one but an empty file, which the decoder refuses. *)
Lemma SaveToFile_interrupted_truncates_target :
  let fs := {[ cache.cacheFile sample_cache := earlier_snapshot ]} in
  let fs' := os.crash_after 1 (@cache.SaveToFile_calls reference.gob sample_cache) fs in
  fs !! cache.cacheFile sample_cache = Some earlier_snapshot
  ∧ fs' !! cache.cacheFile sample_cache = Some []
  ∧ earlier_snapshot ≠ []
  ∧ @cache.gob_encode reference.gob (cache.items sample_cache) ≠ []
  ∧ @cache.gob_decode reference.gob [] = None.
Proof.
  cbv zeta. split; [apply lookup_singleton_eq|].
  split; [rewrite crash_after_create; apply lookup_insert_eq|].
  split; [apply bytes_of_pos_nonempty|].
  split; [apply bytes_of_pos_nonempty|]. reflexivity.
Qed.

(** ** The store: [MakeOrder] *)

Lemma driver_error_not_exists (err : error) :
  driver_error err → errors_Is err ErrOrderExists = false.
Proof. by intros [msg ->]. Qed.

Lemma insert_items_result (faults : database.DbFaults) (uid : string)
  (its : list model.Item) (i : nat) (t : database.Tables) :
  match database.insert_items faults uid i its t with
  | (inl err, _) =>
      driver_error err ∧ ∃ j, faults (database.OpInsertItem j) = true
  | (inr _, t') =>
      t' = {| database.orders := database.orders t;
              database.delivery := database.delivery t;
              database.payment := database.payment t;
              database.items :=
                database.items t ++ (database.item_row uid <$> its) |}
      ∧ ∀ j, (i ≤ j < i + length its)%nat →
             faults (database.OpInsertItem j) = false
  end.
Proof.
  revert i t. induction its as [|item rest IH]; intros i t.
  - simpl. split; [|intros; lia]. destruct t; simpl. by rewrite app_nil_r.
  - cbn [database.insert_items]. unfold database.tx_bind, database.tx_Exec.
    destruct (faults (database.OpInsertItem i)) eqn:Hi.
    + split; [by eexists | by exists i].
    + specialize (IH (S i) (database.insert_item uid item t)).
      destruct (database.insert_items faults uid (S i) rest _)
        as [[err|[]] t']; [done|].
      destruct IH as [-> IH]. split.
      * simpl. by rewrite <- app_assoc.
      * intros j Hj. destruct (decide (j = i)) as [->|Hne]; [done|].
        apply IH. simpl in Hj. lia.
Qed.

(** What the statements between [Begin] and [Commit] come to. *)
Lemma MakeOrder_tx_result (faults : database.DbFaults) (order : model.Order)
  (t : database.Tables) :
  match database.MakeOrder_tx faults order t with
  | (inl err, _) =>
      (err = ErrOrderExists
       ∧ database.order_exists (model.OrderUID order) t = true
       ∧ faults database.OpCheckDuplicate = false)
      ∨ (driver_error err ∧ ∃ op, faults op = true)
  | (inr _, t') =>
      t' = with_order order t
      ∧ database.order_exists (model.OrderUID order) t = false
      ∧ faults database.OpCheckDuplicate = false
      ∧ faults database.OpInsertOrder = false
      ∧ faults database.OpInsertDelivery = false
      ∧ faults database.OpInsertPayment = false
      ∧ ∀ j, (j < length (model.Items order))%nat →
             faults (database.OpInsertItem j) = false
  end.
Proof.
  unfold database.MakeOrder_tx, database.tx_bind, database.tx_QueryRow,
    database.tx_Exec, database.tx_fail.
  destruct (faults database.OpCheckDuplicate) eqn:H1;
    [right; split; [by eexists | by eexists]|].
  destruct (database.order_exists _ t) eqn:Hex; [by left|].
  destruct (faults database.OpInsertOrder) eqn:H2;
    [right; split; [by eexists | by eexists]|].
  destruct (faults database.OpInsertDelivery) eqn:H3;
    [right; split; [by eexists | by eexists]|].
  destruct (faults database.OpInsertPayment) eqn:H4;
    [right; split; [by eexists | by eexists]|].
  pose proof (insert_items_result faults (model.OrderUID order)
                (model.Items order) 0
                (database.insert_payment order
                   (database.insert_delivery order
                      (database.insert_order order t)))) as Hitems.
  destruct (database.insert_items _ _ _ _ _) as [[err|[]] t'].
  - right. destruct Hitems as [Herr [j Hj]]. split; [done | by eexists].
  - destruct Hitems as [-> Hj]. repeat split; try done.
    intros j ?. apply Hj. lia.
Qed.

Lemma with_order_exists (order : model.Order) (t : database.Tables) :
  database.order_exists (model.OrderUID order) (with_order order t) = true.
Proof.
  unfold database.order_exists, with_order. simpl.
  rewrite existsb_app. simpl. rewrite bool_decide_eq_true_2 by done.
  by rewrite orb_true_r.
Qed.

Lemma with_order_orders_length (order : model.Order) (t : database.Tables) :
  length (database.orders (with_order order t)) = S (length (database.orders t)).
Proof. unfold with_order. simpl. rewrite length_app. simpl. lia. Qed.

Lemma MakeOrder_tx_duplicate (faults : database.DbFaults)
  (order : model.Order) (t : database.Tables) :
  faults database.OpCheckDuplicate = false →
  database.order_exists (model.OrderUID order) t = true →
  database.MakeOrder_tx faults order t = (inl ErrOrderExists, t).
Proof.
  intros Hc Hex.
  unfold database.MakeOrder_tx, database.tx_bind, database.tx_QueryRow.
  by rewrite Hc, Hex.
Qed.

(** The result of [MakeOrder], case by case. *)
Lemma MakeOrder_result (faults : database.DbFaults) (order : model.Order)
  (db : database.Database) :
  match database.MakeOrder faults order db with
  | (Some err, db') =>
      db' = db
      ∧ ((err = ErrOrderExists
          ∧ database.order_exists (model.OrderUID order) db = true)
         ∨ (driver_error err ∧ ∃ op, faults op = true))
  | (None, db') =>
      db' = with_order order db
      ∧ database.order_exists (model.OrderUID order) db = false
  end.
Proof.
  pose proof (MakeOrder_tx_result faults order db) as Htx.
  unfold database.MakeOrder, database.Begin, database.Commit,
    database.Rollback.
  destruct (faults database.OpBegin) eqn:Hb.
  { split; [done|]. right. split; by eexists. }
  destruct (database.MakeOrder_tx faults order db) as [[err|[]] tx].
  - split; [done|]. destruct Htx as [(-> & Hex & _)|[Hdrv Hop]]; auto.
  - destruct Htx as (-> & Hex & _).
    destruct (faults database.OpCommit) eqn:Hcm; [|done].
    split; [done|]. right. split; by eexists.
Qed.

Lemma MakeOrder_existing (faults : database.DbFaults) (order : model.Order)
  (db : database.Database) :
  faults database.OpBegin = false →
  faults database.OpCheckDuplicate = false →
  database.order_exists (model.OrderUID order) db = true →
  database.MakeOrder faults order db = (Some ErrOrderExists, db).
Proof.
  intros Hb Hc Hex. unfold database.MakeOrder, database.Begin.
  by rewrite Hb, (MakeOrder_tx_duplicate _ _ _ Hc Hex).
Qed.

(** C5: [MakeOrder] is all or nothing.  Whenever it returns an error
    the committed rows are exactly those from before the call, in all
    four tables, whichever statement failed, so [GetAllOrders] sees what
    it saw before; when it returns nil the order was not there before and
    all of its rows are.  An order whose id is already in [orders] is
    never inserted: the call fails, with the sentinel [ErrOrderExists]
    unless the transaction could not be started or the check itself
    failed, and [errors.Is] tells the sentinel from every failure of the
    driver. *)
Theorem MakeOrder_all_or_nothing (faults : database.DbFaults)
  (order : model.Order) (db : database.Database) :
  match database.MakeOrder faults order db with
  | (Some err, db') =>
      db' = db
      ∧ (∀ f, database.GetAllOrders f db' = database.GetAllOrders f db)
      ∧ (errors_Is err ErrOrderExists = true →
         err = ErrOrderExists
         ∧ database.order_exists (model.OrderUID order) db = true)
      ∧ (errors_Is err ErrOrderExists = false → ∃ op, faults op = true)
  | (None, db') =>
      db' = with_order order db
      ∧ database.order_exists (model.OrderUID order) db = false
  end
  ∧ (database.order_exists (model.OrderUID order) db = true →
     (∃ err, database.MakeOrder faults order db = (Some err, db))
     ∧ (faults database.OpBegin = false →
        faults database.OpCheckDuplicate = false →
        database.MakeOrder faults order db = (Some ErrOrderExists, db))).
Proof.
  pose proof (MakeOrder_result faults order db) as Hres. split.
  - destruct (database.MakeOrder faults order db) as [[err|] db']; [|done].
    destruct Hres as [-> Hcause]. split; [done|]. split; [done|].
    destruct Hcause as [[-> Hex]|[Hdrv Hop]]; [done|].
    by rewrite (driver_error_not_exists _ Hdrv).
  - intros Hex. split.
    + destruct (database.MakeOrder faults order db) as [[err|] db'].
      * destruct Hres as [-> _]. by eexists.
      * destruct Hres as [_ Hex']. congruence.
    + intros Hb Hc. by apply MakeOrder_existing.
Qed.

(** The scenario of a write that fails after the order header went
    in: the transaction holds the header and the delivery row when the
    payment statement fails, the error names the statement, and no row
    is committed. *)
Example MakeOrder_failing_after_header :
  database.MakeOrder_tx payment_fails sample_order empty_db =
    (inl (Wrapf "failed to create payment" PgError),
     database.insert_delivery sample_order
       (database.insert_order sample_order empty_db))
  ∧ database.MakeOrder payment_fails sample_order empty_db =
    (Some (Wrapf "failed to create payment" PgError), empty_db)
  ∧ database.MakeOrder database.no_db_faults sample_order empty_db =
    (None, with_order sample_order empty_db).
Proof. split; [|split]; reflexivity. Qed.

Lemma MakeOrder_new (faults : database.DbFaults) (order : model.Order)
  (db : database.Database) :
  healthy faults →
  database.order_exists (model.OrderUID order) db = false →
  database.MakeOrder faults order db = (None, with_order order db).
Proof.
  intros Hh Hex.
  pose proof (MakeOrder_result faults order db) as Hres.
  destruct (database.MakeOrder faults order db) as [[err|] db'].
  - destruct Hres as [_ [[_ Hex']|[_ [op Hf]]]]; [congruence|].
    rewrite Hh in Hf. done.
  - by destruct Hres as [-> _].
Qed.

Lemma MakeOrder_duplicate (faults : database.DbFaults) (order : model.Order)
  (db : database.Database) :
  healthy faults →
  database.order_exists (model.OrderUID order) db = true →
  database.MakeOrder faults order db = (Some ErrOrderExists, db).
Proof.
  intros Hh Hex. apply MakeOrder_existing; [apply Hh..|done].
Qed.

(** ** The ingestion handler and the consumer loop *)

Section handler_properties.
Context `{J : Json}.

Lemma HandleOrder_parsed (faults : database.DbFaults) (msg : kafka.Message)
  (order : model.Order) (db : database.Database) (c : cache.Cache) (now : Z) :
  kafka.Value msg ≠ [] → Unmarshal (kafka.Value msg) = inr order →
  model.OrderUID order ≠ "" →
  handler.HandleOrder faults msg db c now =
    if (cache.Get c (model.OrderUID order)).2 then (None, db, c)
    else
      match database.MakeOrder faults order db with
      | (Some err, db') =>
          if errors_Is err ErrOrderExists then (None, db', c)
          else (Some (Wrapf "failed to save order to DB" err), db', c)
      | (None, db') => (None, db', cache.Set_ c order cache.DefaultTTL now)
      end.
Proof.
  intros Hne Hparse Huid. unfold handler.HandleOrder.
  rewrite bool_decide_eq_false_2 by (by destruct (kafka.Value msg)).
  rewrite Hparse. by rewrite bool_decide_eq_false_2.
Qed.


(** [HandleOrder] is [HandleOrder_among] when the other goroutines leave
    the cache alone. *)
Lemma HandleOrder_among_alone (faults : database.DbFaults)
  (msg : kafka.Message) (db : database.Database) (c : cache.Cache) (now : Z) :
  handler.HandleOrder_among (λ c, c) faults msg db c now =
    handler.HandleOrder faults msg db c now.
Proof. reflexivity. Qed.


(** When [HandleOrder] returns an error, the cache is the one it was
    given, beside the others too. *)
Lemma HandleOrder_among_error (meanwhile : cache.Cache → cache.Cache)
  (faults : database.DbFaults) (msg : kafka.Message) (db : database.Database)
  (c : cache.Cache) (now : Z) (err : error) :
  (handler.HandleOrder faults msg db c now).1.1 = Some err →
  handler.HandleOrder_among meanwhile faults msg db c now =
    handler.HandleOrder faults msg db c now.
Proof.
  unfold handler.HandleOrder_among, handler.HandleOrder.
  destruct (bool_decide (length (kafka.Value msg) = 0%nat)); [done|].
  destruct (Unmarshal (kafka.Value msg)) as [e|order]; [done|].
  destruct (bool_decide (model.OrderUID order = "")); [done|].
  destruct (cache.Get c (model.OrderUID order)).2; [done|].
  destruct (database.MakeOrder faults order db) as [[e|] db']; [|done].
  by destruct (errors_Is e ErrOrderExists).
Qed.

(** A reader with a [GroupID]: when [ReadMessage] returns a message, the
    broker had that message for it, the commit inside [ReadMessage] went
    through, and the reader has both handed the message out and committed
    it. *)
Lemma ReadMessage_returns (next : error + kafka.Message) (fails : bool)
  (r : kafka.Reader) (msg : kafka.Message) :
  kafka.GroupID r ≠ "" →
  (kafka.ReadMessage next fails r).1 = inr msg →
  next = inr msg ∧ fails = false
  ∧ kafka.ReadMessage next fails r =
      (inr msg,
       {| kafka.GroupID := kafka.GroupID r;
          kafka.fetched := kafka.fetched r ++ [msg];
          kafka.committed := kafka.committed r ++ [msg] |}).
Proof.
  intros Hgroup. unfold kafka.ReadMessage, kafka.FetchMessage.
  destruct next as [err|m]; [done|]. cbn [kafka.GroupID].
  unfold kafka.CommitMessages. cbn [kafka.GroupID].
  rewrite !bool_decide_eq_false_2 by done.
  destruct fails; [done|]. cbn [fst]. by intros [= ->].
Qed.



(** What the reader has handed out and what it has committed only
    grows, turn after turn, and its group stays; this holds of a reader
    without a group too. *)
Lemma RunKafkaReader_turn_reader_grows (st : app.Consumer) (t : app.Turn) :
  let r' := app.reader (app.RunKafkaReader_turn st t) in
  kafka.GroupID r' = kafka.GroupID (app.reader st)
  ∧ kafka.fetched (app.reader st) `prefix_of` kafka.fetched r'
  ∧ kafka.committed (app.reader st) `prefix_of` kafka.committed r'.
Proof.
  cbv zeta. unfold app.RunKafkaReader_turn, kafka.ReadMessage,
    kafka.FetchMessage, kafka.CommitMessages.
  destruct (app.next t) as [err|msg]; [done|]. cbn [kafka.GroupID].
  destruct (bool_decide (kafka.GroupID (app.reader st) = "")) eqn:Hgroup;
    [|destruct (app.read_commit_fails t)];
    [| cbn [app.reader kafka.GroupID kafka.fetched kafka.committed];
       split; [done|]; split; [by apply prefix_app_r|done] |];
    (destruct (handler.HandleOrder_among _ _ _ _ _ _) as [[[err|] db'] c'];
     [|destruct (app.commit_fails t)]);
    cbn [app.reader kafka.GroupID]; rewrite ?Hgroup;
    cbn [snd kafka.GroupID kafka.fetched kafka.committed];
    (split; [done|]); (split; [by apply prefix_app_r|]);
    try done; try (by apply prefix_app_r).
  etrans; by apply prefix_app_r.
Qed.

Lemma RunKafkaReader_reader_grows (turns : list app.Turn) (st : app.Consumer) :
  let r' := app.reader (app.RunKafkaReader st turns) in
  kafka.GroupID r' = kafka.GroupID (app.reader st)
  ∧ kafka.fetched (app.reader st) `prefix_of` kafka.fetched r'
  ∧ kafka.committed (app.reader st) `prefix_of` kafka.committed r'.
Proof.
  cbv zeta. revert st. induction turns as [|t turns IH]; intros st; [done|].
  unfold app.RunKafkaReader in *. cbn [foldl].
  destruct (RunKafkaReader_turn_reader_grows st t) as (Hg & Hf & Hc).
  destruct (IH (app.RunKafkaReader_turn st t)) as (Hg' & Hf' & Hc').
  split; [by rewrite Hg'|]. split; by etrans.
Qed.

(** C3: a message that parses to an order with an id, not yet in the
    cache nor in the store, delivered twice while the store's statements
    succeed: the first call returns nil, commits the order's rows (one
    row more in [orders]) and caches the order under the default TTL; the
    second call returns nil and leaves the store as the first left it,
    stopped by the cache's entry; and whatever the cache [c2] has become
    between the two calls (sweeps of the reaper, lookups), the second
    call returns nil and writes nothing, stopped by the entry or by the
    store's [ErrOrderExists]. *)
Theorem redelivery_writes_store_once (f1 f2 : database.DbFaults)
  (msg : kafka.Message) (order : model.Order) (db : database.Database)
  (c : cache.Cache) (now1 now2 : Z) :
  kafka.Value msg ≠ [] → Unmarshal (kafka.Value msg) = inr order →
  model.OrderUID order ≠ "" →
  healthy f1 → healthy f2 →
  cache.items c !! model.OrderUID order = None →
  database.order_exists (model.OrderUID order) db = false →
  let db1 := with_order order db in
  let c1 := cache.Set_ c order cache.DefaultTTL now1 in
  handler.HandleOrder f1 msg db c now1 = (None, db1, c1)
  ∧ length (database.orders db1) = S (length (database.orders db))
  ∧ handler.HandleOrder f2 msg db1 c1 now2 = (None, db1, c1)
  ∧ ∀ c2, handler.HandleOrder f2 msg db1 c2 now2 = (None, db1, c2).
Proof.
  intros Hne Hparse Huid Hh1 Hh2 Hmiss Hnew. cbv zeta.
  split; [|split; [|split]].
  - rewrite (HandleOrder_parsed _ _ order) by done.
    rewrite Get_lookup, Hmiss. cbn [snd].
    by rewrite MakeOrder_new.
  - apply with_order_orders_length.
  - rewrite (HandleOrder_parsed _ _ order) by done.
    by rewrite Get_lookup, Set_lookup_eq.
  - intros c2. rewrite (HandleOrder_parsed _ _ order) by done.
    destruct (cache.Get _ _).2; [done|].
    rewrite MakeOrder_duplicate by (done || apply with_order_exists).
    reflexivity.
Qed.

(** Whatever the store, the cache and the failures are, two deliveries
    in a row change the committed rows at most once. *)
Lemma redelivery_writes_store_at_most_once (f1 f2 : database.DbFaults)
  (msg : kafka.Message) (db : database.Database) (c : cache.Cache)
  (now1 now2 : Z) :
  let r1 := handler.HandleOrder f1 msg db c now1 in
  let r2 := handler.HandleOrder f2 msg r1.1.2 r1.2 now2 in
  r1.1.2 = db ∨ r2.1.2 = r1.1.2.
Proof.
  cbv zeta. unfold handler.HandleOrder.
  destruct (bool_decide (length (kafka.Value msg) = 0%nat)); [by left|].
  destruct (Unmarshal (kafka.Value msg)) as [err|order]; [by left|].
  destruct (bool_decide (model.OrderUID order = "")); [by left|].
  destruct (cache.Get c (model.OrderUID order)).2; [by left|].
  pose proof (MakeOrder_result f1 order db) as H1.
  destruct (database.MakeOrder f1 order db) as [[err|] db1].
  - destruct H1 as [-> _]. left. by destruct (errors_Is err ErrOrderExists).
  - right. cbn [fst snd]. rewrite Get_lookup, Set_lookup_eq. done.
Qed.


End handler_properties.


(** The run of that turn: the lone brace does not parse, [HandleOrder]
    returns the parser's error, and the message is the one committed
    message afterwards. *)
Example malformed_message_turn :
  @Unmarshal reference.json (kafka.Value malformed_message) = inl JsonError
  ∧ @app.RunKafkaReader_turn reference.json fresh_consumer
      (turn_with malformed_message) =
      {| app.db := empty_db; app.c := cache.New "order_cache.gob";
         app.reader :=
           {| kafka.GroupID := "order-service-group";
              kafka.fetched := [malformed_message];
              kafka.committed := [malformed_message] |} |}.
Proof. split; reflexivity. Qed.

(** [sample_message] delivered twice to a consumer that starts with an
    empty store and an empty cache. *)
Lemma redelivery_writes_store_once_witness :
  let db1 := with_order sample_order empty_db in
  let c1 := cache.Set_ (cache.New "order_cache.gob") sample_order
              cache.DefaultTTL sample_now in
  @handler.HandleOrder reference.json database.no_db_faults sample_message
    empty_db (cache.New "order_cache.gob") sample_now = (None, db1, c1)
  ∧ length (database.orders db1) = S (length (database.orders empty_db))
  ∧ @handler.HandleOrder reference.json database.no_db_faults sample_message
      db1 c1 (sample_now + Second) = (None, db1, c1)
  ∧ ∀ c2, @handler.HandleOrder reference.json database.no_db_faults
            sample_message db1 c2 (sample_now + Second) = (None, db1, c2).
Proof.
  apply (@redelivery_writes_store_once reference.json database.no_db_faults
           database.no_db_faults sample_message sample_order empty_db
           (cache.New "order_cache.gob") sample_now (sample_now + Second)).
  - discriminate.
  - reflexivity.
  - discriminate.
  - intros op. reflexivity.
  - intros op. reflexivity.
  - reflexivity.
  - reflexivity.
Defined.

(** ** The lookup handler *)

Lemma FindStringSubmatch_order_path (key : string) :
  key ≠ "" → server.all_id_chars key = true →
  server.FindStringSubmatch (String.append "/order/" key) = Some key.
Proof.
  intros Hne Hchars. destruct key as [|a rest]; [done|].
  unfold server.FindStringSubmatch.
  assert (server.strip_prefix "/order/" (String.append "/order/" (String a rest))
          = Some (String a rest)) as -> by reflexivity.
  by rewrite Hchars.
Qed.

Lemma ItemsInfo_nonempty (faults : database.DbFaults) (uid : string)
  (db : database.Database) (infos : list model.ItemInfo) :
  database.ItemsInfo faults uid db = inr infos → infos ≠ [].
Proof.
  unfold database.ItemsInfo.
  destruct (faults database.OpQueryItems); [done|].
  destruct (faults database.OpRowsItems); [done|].
  destruct (filter _ _) as [|r rows]; [done|].
  intros [= <-]. done.
Qed.

Lemma strip_prefix_Some (p s rest : string) :
  server.strip_prefix p s = Some rest → s = String.append p rest.
Proof.
  revert s. induction p as [|a p IH]; intros s Hs.
  - by injection Hs as ->.
  - destruct s as [|b s]; [done|]. cbn [server.strip_prefix] in Hs.
    destruct (Ascii.eqb_spec a b) as [->|]; [|done].
    cbn [String.append]. by rewrite (IH s Hs).
Qed.

(** What the route's pattern captures: the rest of the path after
    [/order/], not empty and made of letters, digits and hyphens. *)
Lemma FindStringSubmatch_Some (path key : string) :
  server.FindStringSubmatch path = Some key →
  path = String.append "/order/" key ∧ key ≠ "" ∧ server.all_id_chars key = true.
Proof.
  unfold server.FindStringSubmatch.
  destruct (server.strip_prefix "/order/" path) as [[|a rest]|] eqn:Hstrip;
    [done| |done].
  destruct (server.all_id_chars (String a rest)) eqn:Hchars; [|done].
  intros [= <-]. split; [by apply strip_prefix_Some | done].
Qed.

(** [ItemsInfo] in terms of the item rows of the order. *)
Lemma ItemsInfo_item_rows (faults : database.DbFaults) (key : string)
  (db : database.Database) :
  database.ItemsInfo faults key db =
    if faults database.OpQueryItems
    then inl (Wrapf "failed to query items" PgError)
    else if faults database.OpRowsItems
         then inl (Wrapf "row iteration error" PgError)
         else match item_rows key db with
              | [] => inl ErrOrderNotFound
              | _ => inr (database.item_info <$> item_rows key db)
              end.
Proof. reflexivity. Qed.

(** The response and the cached order the handler builds from the
    result of [ItemsInfo], in terms of the rows. *)
Lemma item_response_item_info (key : string) (rows : list database.ItemRow) :
  {| server.OrderUID := key;
     server.Items := server.item_response <$> (database.item_info <$> rows) |} =
    projected_response key rows.
Proof.
  unfold projected_response. f_equal.
  induction rows as [|row rows IH]; [done|].
  rewrite !fmap_cons. by f_equal.
Qed.

Lemma orderToModel_projected_response (key : string)
  (rows : list database.ItemRow) :
  server.orderToModel (projected_response key rows) = projected_order key rows.
Proof.
  unfold server.orderToModel, projected_order, projected_response.
  cbn [server.OrderUID server.Items]. f_equal.
  induction rows as [|row rows IH]; [done|].
  rewrite !fmap_cons. by f_equal.
Qed.

(** The handler once the method and the path are accepted. *)
Lemma orderAPIHandler_accepted (faults : database.DbFaults)
  (r : server.Request) (db : database.Database) (c : cache.Cache)
  (meanwhile : cache.Cache → cache.Cache) (now : Z) (key : string) :
  server.Method r = "GET" → route_accepts (server.Path r) key →
  server.orderAPIHandler faults r db c meanwhile now =
    match cache.items c !! key with
    | Some item => (server.SendOrder (cache.Order item), c)
    | None =>
        if faults database.OpQueryItems || faults database.OpRowsItems
        then (server.HttpError "Order not found" server.StatusNotFound, c)
        else
          match item_rows key db with
          | [] => (server.HttpError "Order not found" server.StatusNotFound, c)
          | _ =>
              (server.SendSimplified (projected_response key (item_rows key db)),
               cache.Set_ (meanwhile c) (projected_order key (item_rows key db))
                 cache.DefaultTTL now)
          end
    end.
Proof.
  intros Hget (Hpath & Hne & Hchars). unfold server.orderAPIHandler.
  rewrite bool_decide_eq_true_2 by done. cbn [negb].
  rewrite Hpath, (FindStringSubmatch_order_path key Hne Hchars), Get_lookup.
  destruct (cache.items c !! key) as [item|]; [done|].
  rewrite ItemsInfo_item_rows.
  destruct (faults database.OpQueryItems); [done|].
  destruct (faults database.OpRowsItems); [done|]. cbn [orb].
  destruct (item_rows key db) as [|row rows] eqn:Hrows; [done|].
  rewrite fmap_cons, <- (fmap_cons database.item_info).
  rewrite item_response_item_info, orderToModel_projected_response.
  reflexivity.
Qed.

(** C9, as the code has it: for a GET whose path is [/order/] followed
    by a key of letters, digits and hyphens, the handler answers from the
    cache when the key is there, whatever the store holds and without
    changing the cache.  Otherwise it asks the store for the item rows
    of the order: when the query fails or the store has no item row for
    the key, it answers 404 and leaves the cache as it was; when there
    are rows, it answers with the id and, row by row, the name, price,
    size, total price and brand, and before that sets the order made of
    just these in the cache, under the key and with the default TTL.
    Right after that [Set] the cache holds this order under the key, due
    ten minutes after the clock reading, whatever the other goroutines
    put there in the meantime, and every other key is as they left it. *)
Theorem orderAPIHandler_read_through (faults : database.DbFaults)
  (r : server.Request) (db : database.Database) (c : cache.Cache)
  (meanwhile : cache.Cache → cache.Cache) (now : Z) (key : string) :
  server.Method r = "GET" →
  route_accepts (server.Path r) key →
  let answer := server.orderAPIHandler faults r db c meanwhile now in
  (∀ item, cache.items c !! key = Some item →
     answer = (server.SendOrder (cache.Order item), c))
  ∧ (cache.items c !! key = None →
     let rows := item_rows key db in
     (faults database.OpQueryItems = true ∨ faults database.OpRowsItems = true
      ∨ rows = [] →
      answer = (server.HttpError "Order not found" server.StatusNotFound, c))
     ∧ (faults database.OpQueryItems = false →
        faults database.OpRowsItems = false → rows ≠ [] →
        let c' := cache.Set_ (meanwhile c) (projected_order key rows)
                    cache.DefaultTTL now in
        answer = (server.SendSimplified (projected_response key rows), c')
        ∧ cache.Get c' key = (projected_order key rows, true)
        ∧ (min_int64 ≤ now + cache.DefaultTTL ≤ max_int64 →
           cache.items c' !! key =
             Some {| cache.Order := projected_order key rows;
                     cache.Expiration := now + cache.DefaultTTL |})
        ∧ ∀ k, k ≠ key →
               cache.items c' !! k = cache.items (meanwhile c) !! k)).
Proof.
  intros Hget Hroute. cbv zeta.
  rewrite (orderAPIHandler_accepted faults r db c meanwhile now key) by done.
  split.
  - intros item Hhit. by rewrite Hhit.
  - intros Hmiss. rewrite Hmiss. split.
    + intros [-> | [-> | ->]]; [done| |].
      * by rewrite orb_true_r.
      * by destruct (_ || _).
    + intros -> -> Hrows. cbn [orb].
      destruct (item_rows key db) as [|row rows] eqn:Heq; [done|].
      split; [done|].
      set (order := projected_order key (row :: rows)).
      split; [exact (Get_after_Set (meanwhile c) order _ now)|].
      split.
      * intros Hrange.
        pose proof (Set_lookup_eq (meanwhile c) order cache.DefaultTTL now)
          as Hset.
        rewrite Add_UnixNano_in_range in Hset by done. exact Hset.
      * intros k Hk. by apply Set_lookup_ne.
Qed.

(** The request for the stored order, against an empty cache, while the
    consumer loop sets the full order in the cache between the handler's
    [Get] and its [Set]. *)
Lemma orderAPIHandler_read_through_witness :
  let key := "b563feb7b2b84b6test" in
  let c := cache.New "order_cache.gob" in
  let r := {| server.Method := "GET";
              server.Path := "/order/b563feb7b2b84b6test" |} in
  let meanwhile :=
    λ c, cache.Set_ c stored_order cache.DefaultTTL sample_now in
  let now := sample_now + Second in
  let answer :=
    server.orderAPIHandler database.no_db_faults r sample_db c meanwhile now in
  (∀ item, cache.items c !! key = Some item →
     answer = (server.SendOrder (cache.Order item), c))
  ∧ (cache.items c !! key = None →
     let rows := item_rows key sample_db in
     (database.no_db_faults database.OpQueryItems = true
      ∨ database.no_db_faults database.OpRowsItems = true
      ∨ rows = [] →
      answer = (server.HttpError "Order not found" server.StatusNotFound, c))
     ∧ (database.no_db_faults database.OpQueryItems = false →
        database.no_db_faults database.OpRowsItems = false → rows ≠ [] →
        let c' := cache.Set_ (meanwhile c) (projected_order key rows)
                    cache.DefaultTTL now in
        answer = (server.SendSimplified (projected_response key rows), c')
        ∧ cache.Get c' key = (projected_order key rows, true)
        ∧ (min_int64 ≤ now + cache.DefaultTTL ≤ max_int64 →
           cache.items c' !! key =
             Some {| cache.Order := projected_order key rows;
                     cache.Expiration := now + cache.DefaultTTL |})
        ∧ ∀ k, k ≠ key →
               cache.items c' !! k = cache.items (meanwhile c) !! k)).
Proof.
  apply (orderAPIHandler_read_through database.no_db_faults
           {| server.Method := "GET";
              server.Path := "/order/b563feb7b2b84b6test" |}
           sample_db (cache.New "order_cache.gob")
           (λ c, cache.Set_ c stored_order cache.DefaultTTL sample_now)
           (sample_now + Second) "b563feb7b2b84b6test").
  - reflexivity.
  - split; [reflexivity|]. split; [discriminate | reflexivity].
Defined.

(** C9 as stated fails.  [sample_order] has an id the route accepts and
    no item; [MakeOrder] stores it, the store then holds the order, and
    the lookup of its id that misses the cache answers 404 and caches
    nothing.  [underscore_order] is stored with its item, but its id is
    not one the route accepts: the request for it is answered 400 before
    the cache or the store is consulted.  And [stored_order] is stored
    with its item and found by the lookup of its id, but what the cache
    holds under the id afterwards is not the order that was stored. *)
Lemma orderAPIHandler_misses_stored_orders :
  database.MakeOrder database.no_db_faults sample_order empty_db =
    (None, with_order sample_order empty_db)
  ∧ database.order_exists "b563feb7b2b84b6test"
      (with_order sample_order empty_db) = true
  ∧ server.orderAPIHandler database.no_db_faults
      {| server.Method := "GET"; server.Path := "/order/b563feb7b2b84b6test" |}
      (with_order sample_order empty_db) (cache.New "order_cache.gob")
      (λ c, c) sample_now =
      (server.HttpError "Order not found" 404, cache.New "order_cache.gob")
  ∧ database.MakeOrder database.no_db_faults underscore_order empty_db =
      (None, with_order underscore_order empty_db)
  ∧ item_rows "order_1" (with_order underscore_order empty_db) =
      [database.item_row "order_1" sample_item]
  ∧ server.orderAPIHandler database.no_db_faults
      {| server.Method := "GET"; server.Path := "/order/order_1" |}
      (with_order underscore_order empty_db) (cache.New "order_cache.gob")
      (λ c, c) sample_now =
      (server.HttpError "Invalid order ID" 400, cache.New "order_cache.gob")
  ∧ database.MakeOrder database.no_db_faults stored_order empty_db =
      (None, sample_db)
  ∧ (cache.Get
       (server.orderAPIHandler database.no_db_faults
          {| server.Method := "GET";
             server.Path := "/order/b563feb7b2b84b6test" |}
          sample_db (cache.New "order_cache.gob") (λ c, c) sample_now).2
       "b563feb7b2b84b6test").2 = true
  ∧ (cache.Get
       (server.orderAPIHandler database.no_db_faults
          {| server.Method := "GET";
             server.Path := "/order/b563feb7b2b84b6test" |}
          sample_db (cache.New "order_cache.gob") (λ c, c) sample_now).2
       "b563feb7b2b84b6test").1 ≠ stored_order.
Proof. repeat split. discriminate. Qed.

(** The scenario of the lookup of a key absent from the cache and
    present in the store, run: the answer carries the stored item, and
    the cache then holds the order made of it under the key, not the
    stored order. *)
Example lookup_populates_cache :
  let r := {| server.Method := "GET";
              server.Path := "/order/b563feb7b2b84b6test" |} in
  let response :=
    {| server.OrderUID := "b563feb7b2b84b6test";
       server.Items :=
         [{| server.Name := "Mascaras"; server.Price := 453;
             server.Size := "0"; server.TotalPrice := 317;
             server.Brand := "Vivienne Sabo" |}] |} in
  let res := server.orderAPIHandler database.no_db_faults r sample_db
               (cache.New "order_cache.gob") (λ c, c) sample_now in
  res.1 = server.SendSimplified response
  ∧ cache.Get res.2 "b563feb7b2b84b6test" = (server.orderToModel response, true)
  ∧ server.orderToModel response ≠ stored_order
  ∧ server.orderAPIHandler database.no_db_faults r empty_db
      (cache.New "order_cache.gob") (λ c, c) sample_now =
      (server.HttpError "Order not found" 404, cache.New "order_cache.gob").
Proof. cbv zeta. split; [|split; [|split]]; [reflexivity..|discriminate|reflexivity]. Qed.

(** ** Start-up: [InitializeCache] *)

(** Every order in the map [GetAllOrders] returns sits under its own
    id. *)
Lemma GetAllOrders_loop_keys (faults : database.DbFaults)
  (db : database.Database)
  (rows : list (database.OrderRow * option database.DeliveryRow
                * option database.PaymentRow))
  (acc all : gmap string model.Order) :
  database.GetAllOrders_loop faults db rows acc = inr all →
  (∀ k o, acc !! k = Some o → model.OrderUID o = k) →
  ∀ k o, all !! k = Some o → model.OrderUID o = k.
Proof.
  revert acc. induction rows as [|[[o d] p] rows IH]; intros acc Hloop Hacc.
  - simpl in Hloop. by injection Hloop as <-.
  - cbn [database.GetAllOrders_loop] in Hloop.
    destruct d as [d|]; [|done]. destruct p as [p|]; [|done].
    destruct (database.ItemsInfo faults (database.order_uid o) db)
      as [err|infos]; [done|].
    eapply IH; [exact Hloop|]. intros k o' Hk.
    rewrite lookup_insert in Hk. case_decide as Hd.
    + by injection Hk as <-.
    + by apply Hacc.
Qed.

Lemma GetAllOrders_keys (faults : database.DbFaults) (db : database.Database)
  (all : gmap string model.Order) :
  database.GetAllOrders faults db = inr all →
  ∀ k o, all !! k = Some o → model.OrderUID o = k.
Proof.
  unfold database.GetAllOrders.
  destruct (faults database.OpQueryAllOrders); [done|].
  destruct (database.GetAllOrders_loop _ _ _ _) as [err|all'] eqn:Hloop;
    [done|].
  destruct (faults database.OpRowsAllOrders); [done|].
  intros [= <-]. eapply GetAllOrders_loop_keys; [exact Hloop|]. set_solver.
Qed.

(** The loop of [InitializeCache] over any enumeration [lp] of orders
    under their ids: a key the cache already holds keeps its entry, a
    key it lacks gets the enumeration's order for it, without
    expiration. *)
Lemma InitializeCache_fold_lookup (now : Z) (lp : list (string * model.Order))
  (c : cache.Cache) (k : string) :
  (∀ k' o, (k', o) ∈ lp → model.OrderUID o = k') →
  cache.items (foldl (app.InitializeCache_step now) c lp.*2) !! k =
    match cache.items c !! k with
    | Some item => Some item
    | None =>
        (λ o, {| cache.Order := o; cache.Expiration := 0 |}) <$>
          (list_to_map lp : gmap string model.Order) !! k
    end.
Proof.
  revert c. induction lp as [|[k' o'] lp IH]; intros c Hkeys.
  - simpl. rewrite lookup_empty. by destruct (cache.items c !! k).
  - rewrite fmap_cons. cbn [foldl list_to_map foldr snd uncurry].
    rewrite IH by (intros ???; apply Hkeys; by right).
    assert (model.OrderUID o' = k') as Huid by (apply Hkeys; by left).
    unfold app.InitializeCache_step. rewrite Get_lookup, Huid.
    destruct (cache.items c !! k') as [item'|] eqn:Hk'; cbn [snd].
    + destruct (decide (k' = k)) as [->|Hne].
      * by rewrite Hk'.
      * by rewrite lookup_insert_ne.
    + destruct (decide (k' = k)) as [->|Hne].
      * rewrite <- Huid at 1. rewrite Set_lookup_eq, Hk'.
        by rewrite lookup_insert_eq.
      * rewrite Set_lookup_ne by (by rewrite Huid).
        by rewrite lookup_insert_ne.
Qed.

Lemma InitializeCache_step_keeps (now : Z) (c : cache.Cache)
  (order : model.Order) (k : string) (item : cache.Item) :
  cache.items c !! k = Some item →
  cache.items (app.InitializeCache_step now c order) !! k = Some item.
Proof.
  intros Hk. unfold app.InitializeCache_step. rewrite Get_lookup.
  destruct (decide (model.OrderUID order = k)) as [Heq|Hne].
  - by rewrite Heq, Hk.
  - destruct (cache.items c !! model.OrderUID order); [done|].
    cbn [snd]. by rewrite Set_lookup_ne.
Qed.

(** An entry the cache holds when the loop starts is still there, as
    it was, when the loop ends, also when sweeps of the reaper come
    between the iterations, as long as none comes after the entry's
    expiration. *)
Lemma InitializeCache_loop_with_sweeps_keeps (now : Z)
  (l : list (option Z * model.Order)) (c : cache.Cache) (k : string)
  (item : cache.Item) :
  cache.items c !! k = Some item →
  (∀ t o, (Some t, o) ∈ l → t ≤ cache.Expiration item) →
  cache.items (foldl (InitializeCache_step_swept now) c l) !! k = Some item.
Proof.
  revert c. induction l as [|[sweep o] l IH]; intros c Hk Hsweeps; [done|].
  cbn [foldl]. apply IH; [|intros t o' Hin; eapply Hsweeps; by right].
  unfold InitializeCache_step_swept. cbn [fst snd].
  apply InitializeCache_step_keeps.
  destruct sweep as [t|]; [|done].
  rewrite DeleteExpired_lookup, Hk.
  assert (t ≤ cache.Expiration item) as Ht by (eapply Hsweeps; by left).
  replace (t >? cache.Expiration item) with false by (symmetry; lia).
  by rewrite andb_false_r.
Qed.

Section startup_properties.
Context `{G : cache.Gob}.

(** The cache after start-up, key by key. *)
Lemma InitializeCache_lookup (io : os.IoFaults) (faults : database.DbFaults)
  (fs : gmap string (list byte)) (db : database.Database) (now : Z)
  (k : string) :
  cache.items (app.InitializeCache io faults fs db now) !! k =
    match cache.items (cache.LoadFromFile io (cache.New "order_cache.gob") fs).2 !! k with
    | Some item => Some item
    | None =>
        match database.GetAllOrders faults db with
        | inr all =>
            (λ o, {| cache.Order := o; cache.Expiration := 0 |}) <$> all !! k
        | inl _ => None
        end
    end.
Proof.
  unfold app.InitializeCache.
  destruct (database.GetAllOrders faults db) as [err|all] eqn:Hall.
  - by destruct (cache.items _ !! k).
  - rewrite InitializeCache_fold_lookup.
    + by rewrite list_to_map_to_list.
    + intros k' o Hin. apply elem_of_map_to_list in Hin.
      by eapply GetAllOrders_keys.
Qed.

Lemma sweep_keeps_until_due (c : cache.Cache) (k : string) (item : cache.Item)
  (t : Z) :
  cache.items c !! k = Some item → t ≤ cache.Expiration item →
  cache.Get (cache.DeleteExpired c t) k = (cache.Order item, true).
Proof.
  intros Hk Ht. rewrite Get_lookup, DeleteExpired_lookup, Hk.
  replace (t >? cache.Expiration item) with false by (symmetry; lia).
  by rewrite andb_false_r.
Qed.

(** C4: start-up loads the snapshot into a new cache and then ranges
    over the orders of the store, setting without expiration those whose
    key the cache does not hold.  So after start-up a key of the loaded
    snapshot has the snapshot's entry, order and expiration time both,
    whatever the store holds for it; [Get] finds it, also after a sweep
    of the reaper at any time up to its expiration.  A key the snapshot
    lacks has the store's order, without expiration, when the scan of the
    store succeeded, and is absent otherwise.  The loaded snapshot is the
    decoded file when the file opens and decodes. *)
Theorem InitializeCache_keeps_snapshot_entries (io : os.IoFaults)
  (faults : database.DbFaults) (fs : gmap string (list byte))
  (db : database.Database) (now : Z) (k : string) :
  let loaded := (cache.LoadFromFile io (cache.New "order_cache.gob") fs).2 in
  let booted := app.InitializeCache io faults fs db now in
  (∀ item, cache.items loaded !! k = Some item →
     cache.items booted !! k = Some item
     ∧ cache.Get booted k = (cache.Order item, true)
     ∧ ∀ t, t ≤ cache.Expiration item →
            cache.Get (cache.DeleteExpired booted t) k = (cache.Order item, true))
  ∧ (cache.items loaded !! k = None →
     cache.items booted !! k =
       match database.GetAllOrders faults db with
       | inr all =>
           (λ o, {| cache.Order := o; cache.Expiration := 0 |}) <$> all !! k
       | inl _ => None
       end)
  ∧ (∀ data m, io os.OpOpen = false → io os.OpRead = false →
       fs !! "order_cache.gob" = Some data → cache.gob_decode data = Some m →
       cache.items loaded = m).
Proof.
  cbv zeta. split; [|split].
  - intros item Hk.
    assert (cache.items (app.InitializeCache io faults fs db now) !! k = Some item)
      as Hbooted by (by rewrite InitializeCache_lookup, Hk).
    split; [done|]. split.
    + by rewrite Get_lookup, Hbooted.
    + intros t Ht. by apply sweep_keeps_until_due.
  - intros Hk. by rewrite InitializeCache_lookup, Hk.
  - intros data m Ho Hr Hf Hd.
    by rewrite (LoadFromFile_ok io _ fs data m).
Qed.

(** The scenario of a snapshot entry due two minutes after [sample_now]
    and a store holding the same key: after a start-up half a minute
    later the entry is still due at that time, not permanent, and a
    lookup one minute after [sample_now] finds it even if the reaper
    swept just before. *)
Lemma boot_keeps_remaining_ttl (data : list byte) :
  cache.gob_decode data = Some snapshot_items →
  let booted := app.InitializeCache os.no_io_faults database.no_db_faults
                  {[ "order_cache.gob" := data ]} sample_db
                  (sample_now + 30 * Second) in
  cache.items booted !! "b563feb7b2b84b6test" =
    Some {| cache.Order := stored_order;
            cache.Expiration := sample_now + 2 * Minute |}
  ∧ cache.Get (cache.DeleteExpired booted (sample_now + Minute))
      "b563feb7b2b84b6test" = (stored_order, true).
Proof.
  intros Hdata. cbv zeta.
  assert (cache.items (app.InitializeCache os.no_io_faults
            database.no_db_faults {[ "order_cache.gob" := data ]} sample_db
            (sample_now + 30 * Second))
          !! "b563feb7b2b84b6test" =
          Some {| cache.Order := stored_order;
                  cache.Expiration := sample_now + 2 * Minute |}) as Hk.
  { rewrite InitializeCache_lookup.
    rewrite (LoadFromFile_ok os.no_io_faults (cache.New "order_cache.gob")
               {[ "order_cache.gob" := data ]} data snapshot_items
               eq_refl eq_refl (lookup_singleton_eq _ _) Hdata).
    cbn [snd]. rewrite with_items_items. unfold snapshot_items.
    change "b563feb7b2b84b6test" with (model.OrderUID stored_order).
    rewrite Set_lookup_eq. reflexivity. }
  split; [exact Hk|].
  apply (sweep_keeps_until_due _ _ _ _ Hk). cbn [cache.Expiration].
  unfold sample_now, Minute, Second, Nanosecond. lia.
Qed.

End startup_properties.

(** The same scenario with the stand-in codec: the snapshot file holds
    what the codec wrote for [snapshot_items]. *)
Example boot_keeps_remaining_ttl_encoded :
  let booted := @app.InitializeCache reference.gob os.no_io_faults
                  database.no_db_faults
                  {[ "order_cache.gob" :=
                       @cache.gob_encode reference.gob snapshot_items ]}
                  sample_db (sample_now + 30 * Second) in
  cache.items booted !! "b563feb7b2b84b6test" =
    Some {| cache.Order := stored_order;
            cache.Expiration := sample_now + 2 * Minute |}
  ∧ cache.Get (cache.DeleteExpired booted (sample_now + Minute))
      "b563feb7b2b84b6test" = (stored_order, true).
Proof.
  exact (@boot_keeps_remaining_ttl reference.gob _
           (reference_gob_round_trip snapshot_items)).
Qed.

(** * Further properties of the code *)

(** ** The reaper *)

Lemma cache_eq (c1 c2 : cache.Cache) :
  cache.items c1 = cache.items c2 →
  cache.gcInterval c1 = cache.gcInterval c2 →
  cache.cacheFile c1 = cache.cacheFile c2 → c1 = c2.
Proof. destruct c1, c2. simpl. by intros -> -> ->. Qed.

(** Whether a sweep at [now] removes an entry. *)
Lemma sweep_condition (item : cache.Item) (now : Z) :
  (cache.Expiration item >? 0) && (now >? cache.Expiration item) = true
  ↔ 0 < cache.Expiration item < now.
Proof. rewrite andb_true_iff, !Z.gtb_ltb, !Z.ltb_lt. lia. Qed.

Lemma DeleteExpired_lookup_Some (c : cache.Cache) (now : Z) (k : string)
  (item : cache.Item) :
  cache.items (cache.DeleteExpired c now) !! k = Some item
  ↔ cache.items c !! k = Some item
    ∧ ¬ (0 < cache.Expiration item < now).
Proof.
  rewrite DeleteExpired_lookup.
  destruct (cache.items c !! k) as [v|]; [|by split; [|intros [? _]]].
  pose proof (sweep_condition v now) as Hc.
  destruct (_ && _).
  - split; [done|]. intros [[= ->] Hn]. by destruct Hn; apply Hc.
  - split.
    + intros [= ->]. split; [done|]. intros Hd. by apply Hc in Hd.
    + by intros [-> _].
Qed.

(** X1: the result of a sweep does not depend on the order in which
    the range over the map visits the entries: for every enumeration of
    the entries, deleting the due ones one by one leaves the map that
    holds exactly the entries whose expiration is not set (not positive)
    or not yet passed at the sweep's clock reading. *)
Theorem DeleteExpired_any_range_order (c : cache.Cache) (now : Z)
  (l : list (string * cache.Item)) :
  l ≡ₚ map_to_list (cache.items c) →
  foldl (cache.DeleteExpired_step now) (cache.items c) l =
    cache.items (cache.DeleteExpired c now)
  ∧ cache.items (cache.DeleteExpired c now) =
      filter (λ kv, ¬ (0 < cache.Expiration kv.2 < now)) (cache.items c).
Proof.
  intros Hperm.
  assert (NoDup l.*1) as Hnd.
  { rewrite Hperm. apply NoDup_fst_map_to_list. }
  assert ((list_to_map l : gmap string cache.Item) = cache.items c) as Hmap.
  { rewrite (list_to_map_proper _ _ Hnd Hperm). apply list_to_map_to_list. }
  split.
  - apply map_eq. intros k.
    rewrite DeleteExpired_fold_lookup, Hmap, DeleteExpired_lookup by done.
    destruct (cache.items c !! k) as [v|] eqn:Hk; [|done].
    by destruct (_ && _).
  - apply map_eq. intros k. apply option_eq. intros item.
    rewrite DeleteExpired_lookup_Some, map_lookup_filter_Some. done.
Qed.

(** The sweep over the entries in the order [map_to_list] gives. *)
Lemma DeleteExpired_any_range_order_witness :
  foldl (cache.DeleteExpired_step (sample_now + 11 * Minute))
    (cache.items sample_cache) (map_to_list (cache.items sample_cache)) =
    cache.items (cache.DeleteExpired sample_cache (sample_now + 11 * Minute))
  ∧ cache.items (cache.DeleteExpired sample_cache (sample_now + 11 * Minute)) =
      filter (λ kv, ¬ (0 < cache.Expiration kv.2 < sample_now + 11 * Minute))
        (cache.items sample_cache).
Proof.
  apply (DeleteExpired_any_range_order sample_cache (sample_now + 11 * Minute)
           (map_to_list (cache.items sample_cache))).
  reflexivity.
Defined.

(** Two sweeps in a row leave what one sweep at the later of the two
    clock readings leaves. *)
Lemma DeleteExpired_DeleteExpired (c : cache.Cache) (t1 t2 : Z) :
  cache.DeleteExpired (cache.DeleteExpired c t1) t2 =
    cache.DeleteExpired c (Z.max t1 t2).
Proof.
  apply cache_eq; [|done..]. apply map_eq. intros k. apply option_eq.
  intros item. rewrite !DeleteExpired_lookup_Some. split.
  - intros [[Hk H1] H2]. split; [done|]. lia.
  - intros [Hk Hm]. split; [split; [done|]|]; lia.
Qed.

(** X2: the background loop, however many ticks it served, leaves the
    cache as a single sweep at its last tick would, when no earlier tick
    had a later clock reading; in particular a sweep repeated at the same
    reading changes nothing more. *)
Theorem gcLoop_is_last_sweep (c : cache.Cache) (ticks : list Z) (t : Z) :
  (∀ t', t' ∈ ticks → t' ≤ t) →
  cache.gcLoop c (ticks ++ [t]) = cache.DeleteExpired c t.
Proof.
  revert c. induction ticks as [|t1 ticks IH]; intros c Hle; [done|].
  unfold cache.gcLoop in *. cbn [app foldl].
  rewrite IH by (intros t' Hin; apply Hle; by right).
  rewrite DeleteExpired_DeleteExpired.
  rewrite Z.max_r; [done|]. apply Hle. by left.
Qed.

(** Three ticks of the loop, thirty seconds apart, the last one after
    the entry of [sample_cache] is due. *)
Lemma gcLoop_is_last_sweep_witness :
  cache.gcLoop sample_cache
    ([sample_now + 10 * Minute; sample_now + 10 * Minute + 30 * Second]
     ++ [sample_now + 11 * Minute]) =
    cache.DeleteExpired sample_cache (sample_now + 11 * Minute).
Proof.
  apply (gcLoop_is_last_sweep sample_cache
           [sample_now + 10 * Minute; sample_now + 10 * Minute + 30 * Second]
           (sample_now + 11 * Minute)).
  intros t' Hin.
  apply elem_of_cons in Hin as [->|Hin];
    [|apply list_elem_of_singleton in Hin as ->];
    unfold sample_now, Minute, Second, Nanosecond; lia.
Defined.

(** X3: the reaper and [IsExpired] against each other, for an entry of
    the cache.  Every entry a sweep removes is one [IsExpired] reports at
    that clock reading, and an entry whose expiration is not negative is
    removed exactly when [IsExpired] reports it.  An entry with a
    negative expiration is never removed by any sweep although
    [IsExpired] reports it as soon as the clock has passed that value:
    there the two predicates differ. *)
Theorem sweep_and_IsExpired (c : cache.Cache) (now : Z) (k : string)
  (item : cache.Item) :
  cache.items c !! k = Some item →
  (cache.items (cache.DeleteExpired c now) !! k = None →
   cache.IsExpired item now = true)
  ∧ (0 ≤ cache.Expiration item →
     (cache.items (cache.DeleteExpired c now) !! k = None
      ↔ cache.IsExpired item now = true))
  ∧ (cache.Expiration item < 0 →
     cache.items (cache.DeleteExpired c now) !! k = Some item
     ∧ (cache.IsExpired item now = true ↔ cache.Expiration item < now)).
Proof.
  intros Hk.
  assert (cache.items (cache.DeleteExpired c now) !! k = None
          ↔ 0 < cache.Expiration item < now) as Hgone.
  { rewrite DeleteExpired_lookup, Hk.
    pose proof (sweep_condition item now) as Hc.
    destruct (_ && _); [|split; [done|]; intros Hd; by apply Hc in Hd].
    split; [intros _; by apply Hc | done]. }
  assert (cache.Expiration item ≠ 0 →
          (cache.IsExpired item now = true ↔ cache.Expiration item < now))
    as Hexp.
  { intros Hne. unfold cache.IsExpired.
    destruct (Z.eqb_spec (cache.Expiration item) 0); [done|].
    rewrite Z.gtb_ltb, Z.ltb_lt. done. }
  split; [|split].
  - rewrite Hgone. intros Hd. apply Hexp; lia.
  - intros Hpos. rewrite Hgone. split.
    + intros Hd. apply Hexp; lia.
    + intros Hd. unfold cache.IsExpired in Hd.
      destruct (Z.eqb_spec (cache.Expiration item) 0); [done|].
      rewrite Z.gtb_ltb, Z.ltb_lt in Hd. lia.
  - intros Hneg. split; [|apply Hexp; lia].
    apply DeleteExpired_lookup_Some. split; [done|]. lia.
Qed.

(** The entry of [sample_cache], swept one minute after it is due. *)
Lemma sweep_and_IsExpired_witness :
  let item := {| cache.Order := sample_order;
                 cache.Expiration := sample_now + cache.DefaultTTL |} in
  let now := sample_now + 11 * Minute in
  (cache.items (cache.DeleteExpired sample_cache now) !! "b563feb7b2b84b6test" = None →
   cache.IsExpired item now = true)
  ∧ (0 ≤ cache.Expiration item →
     (cache.items (cache.DeleteExpired sample_cache now) !! "b563feb7b2b84b6test" = None
      ↔ cache.IsExpired item now = true))
  ∧ (cache.Expiration item < 0 →
     cache.items (cache.DeleteExpired sample_cache now) !! "b563feb7b2b84b6test" = Some item
     ∧ (cache.IsExpired item now = true ↔ cache.Expiration item < now)).
Proof.
  apply (sweep_and_IsExpired sample_cache (sample_now + 11 * Minute)
           "b563feb7b2b84b6test"
           {| cache.Order := sample_order;
              cache.Expiration := sample_now + cache.DefaultTTL |}).
  reflexivity.
Defined.

(** X4: an order set with a positive duration at a clock reading after
    the epoch, the expiration being an [int64] of nanoseconds: after a
    sweep of the reaper at time [t] the key is still found, with that
    order, when [t] is at most the expiration (the boundary included),
    and is gone, [Get] giving the zero order and false, when [t] is
    later. *)
Theorem Set_then_sweep (c : cache.Cache) (order : model.Order) (d now t : Z) :
  0 < d → 0 ≤ now → now + d ≤ max_int64 →
  cache.Get (cache.DeleteExpired (cache.Set_ c order d now) t)
    (model.OrderUID order) =
    if t >? now + d then (model.zeroOrder, false) else (order, true).
Proof.
  intros Hd Hnow Hmax.
  rewrite Get_lookup, DeleteExpired_lookup, Set_lookup_eq.
  replace (d >? 0) with true by (symmetry; lia).
  rewrite Add_UnixNano_in_range by (unfold min_int64; lia).
  cbn [cache.Expiration cache.Order].
  replace (now + d >? 0) with true by (symmetry; lia).
  cbn [andb]. by destruct (t >? now + d).
Qed.

(** The sample order under the default TTL, swept at the very
    nanosecond it is due. *)
Lemma Set_then_sweep_witness :
  cache.Get (cache.DeleteExpired
               (cache.Set_ (cache.New "order_cache.gob") sample_order
                  cache.DefaultTTL sample_now)
               (sample_now + cache.DefaultTTL))
    (model.OrderUID sample_order) =
    if sample_now + cache.DefaultTTL >? sample_now + cache.DefaultTTL
    then (model.zeroOrder, false) else (sample_order, true).
Proof.
  apply (Set_then_sweep (cache.New "order_cache.gob") sample_order
           cache.DefaultTTL sample_now (sample_now + cache.DefaultTTL));
    unfold cache.DefaultTTL, sample_now, max_int64, Minute, Second, Nanosecond;
    lia.
Defined.

(** ** [Delete] *)

(** X5: [Delete] removes the key and nothing else, whether or not the
    key was there: afterwards [Get] does not find it, every other key
    reads as before, deleting an absent key leaves the cache as it was,
    deleting twice is deleting once, and deleting the key of an order
    just set into a cache that lacked it gives that cache back. *)
Theorem Delete_removes_only_the_key (c : cache.Cache) (k : string) :
  cache.Get (cache.Delete c k) k = (model.zeroOrder, false)
  ∧ (∀ k', k' ≠ k → cache.Get (cache.Delete c k) k' = cache.Get c k')
  ∧ (cache.items c !! k = None → cache.Delete c k = c)
  ∧ cache.Delete (cache.Delete c k) k = cache.Delete c k
  ∧ (∀ order d now,
       model.OrderUID order = k → cache.items c !! k = None →
       cache.Delete (cache.Set_ c order d now) k = c).
Proof.
  split; [|split; [|split; [|split]]].
  - rewrite Get_lookup. unfold cache.Delete. rewrite with_items_items.
    by rewrite lookup_delete_eq.
  - intros k' Hne. rewrite !Get_lookup. unfold cache.Delete.
    rewrite with_items_items. by rewrite lookup_delete_ne.
  - intros Hk. unfold cache.Delete. rewrite delete_id by done.
    apply with_items_same.
  - unfold cache.Delete. rewrite with_items_twice, with_items_items.
    by rewrite delete_delete_eq.
  - intros order d now <- Hk. unfold cache.Delete, cache.Set_.
    rewrite with_items_twice, with_items_items.
    rewrite delete_insert_eq, delete_id by done. apply with_items_same.
Qed.

(** ** [SaveToFile] and the other files *)

(** X6: [SaveToFile] reads and writes no path but the cache's own:
    every other file is as before, whether the save succeeded or not.
    When the file cannot be created the error is returned and the file
    system is left entirely as it was, an earlier snapshot included; and
    a save only succeeds when both the create and the encoder's write
    did. *)
Theorem SaveToFile_touches_only_its_path `{G : cache.Gob} (io : os.IoFaults)
  (c : cache.Cache) (fs : gmap string (list byte)) :
  (∀ p, p ≠ cache.cacheFile c → (cache.SaveToFile io c fs).2 !! p = fs !! p)
  ∧ (io os.OpCreate = true →
     cache.SaveToFile io c fs =
       (Some (PathError "open" (cache.cacheFile c)), fs))
  ∧ ((cache.SaveToFile io c fs).1 = None →
     io os.OpCreate = false ∧ io os.OpWrite = false).
Proof.
  unfold cache.SaveToFile, os.Create.
  destruct (io os.OpCreate); [done|].
  destruct (io os.OpWrite); cbn [fst snd].
  - split; [|done]. intros p Hp. by rewrite lookup_insert_ne.
  - split; [|done]. intros p Hp. by rewrite !lookup_insert_ne.
Qed.

(** ** The ingestion handler, case by case *)

Section handler_cases.
Context `{J : Json}.

(** Every result of [HandleOrder]: an error with nothing changed; nil
    with nothing changed; or nil with a new order stored and cached. *)
Lemma HandleOrder_cases (faults : database.DbFaults) (msg : kafka.Message)
  (db : database.Database) (c : cache.Cache) (now : Z) :
  match handler.HandleOrder faults msg db c now with
  | (Some err, db', c') => db' = db ∧ c' = c ∧ HandleOrder_error err
  | (None, db', c') =>
      (db' = db ∧ c' = c)
      ∨ ∃ order,
          Unmarshal (kafka.Value msg) = inr order
          ∧ model.OrderUID order ≠ ""
          ∧ cache.items c !! model.OrderUID order = None
          ∧ database.order_exists (model.OrderUID order) db = false
          ∧ db' = with_order order db
          ∧ c' = cache.Set_ c order cache.DefaultTTL now
  end.
Proof.
  unfold handler.HandleOrder, HandleOrder_error.
  destruct (bool_decide (length (kafka.Value msg) = 0%nat)); [by left|].
  destruct (Unmarshal (kafka.Value msg)) as [err|order] eqn:Hparse;
    [by eauto 6|].
  destruct (bool_decide (model.OrderUID order = "")) eqn:Huid; [by auto|].
  apply bool_decide_eq_false in Huid.
  rewrite Get_lookup.
  destruct (cache.items c !! model.OrderUID order) eqn:Hk; [by left|].
  cbn [snd].
  pose proof (MakeOrder_result faults order db) as Hres.
  destruct (database.MakeOrder faults order db) as [[err|] db'].
  - destruct Hres as [-> [[-> Hex]|[Hdrv Hop]]]; [by left|].
    rewrite (driver_error_not_exists _ Hdrv). eauto 8.
  - destruct Hres as [-> Hex]. right. by exists order.
Qed.

(** Every result of [HandleOrder] beside the other goroutines: as
    above, and when a new order is stored, the [Set] lands on the cache
    as the others have left it by then. *)
Lemma HandleOrder_among_cases (meanwhile : cache.Cache → cache.Cache)
  (faults : database.DbFaults) (msg : kafka.Message)
  (db : database.Database) (c : cache.Cache) (now : Z) :
  match handler.HandleOrder_among meanwhile faults msg db c now with
  | (Some err, db', c') => db' = db ∧ c' = c ∧ HandleOrder_error err
  | (None, db', c') =>
      (db' = db ∧ c' = c)
      ∨ ∃ order,
          Unmarshal (kafka.Value msg) = inr order
          ∧ model.OrderUID order ≠ ""
          ∧ cache.items c !! model.OrderUID order = None
          ∧ database.order_exists (model.OrderUID order) db = false
          ∧ db' = with_order order db
          ∧ c' = cache.Set_ (meanwhile c) order cache.DefaultTTL now
  end.
Proof.
  unfold handler.HandleOrder_among, HandleOrder_error.
  destruct (bool_decide (length (kafka.Value msg) = 0%nat)); [by left|].
  destruct (Unmarshal (kafka.Value msg)) as [err|order] eqn:Hparse;
    [by eauto 6|].
  destruct (bool_decide (model.OrderUID order = "")) eqn:Huid; [by auto|].
  apply bool_decide_eq_false in Huid.
  rewrite Get_lookup.
  destruct (cache.items c !! model.OrderUID order) eqn:Hk; [by left|].
  cbn [snd].
  pose proof (MakeOrder_result faults order db) as Hres.
  destruct (database.MakeOrder faults order db) as [[err|] db'].
  - destruct Hres as [-> [[-> Hex]|[Hdrv Hop]]]; [by left|].
    rewrite (driver_error_not_exists _ Hdrv). eauto 8.
  - destruct Hres as [-> Hex]. right. by exists order.
Qed.

(** A turn of the loop whose [HandleOrder] returns an error: the store
    is as before, the cache is as the others left it, and the reader
    holds the one commit [ReadMessage] made. *)
Lemma RunKafkaReader_turn_error (st : app.Consumer) (t : app.Turn)
  (msg : kafka.Message) (err : error) :
  kafka.GroupID (app.reader st) ≠ "" →
  (kafka.ReadMessage (app.next t) (app.read_commit_fails t)
     (app.reader st)).1 = inr msg →
  (handler.HandleOrder (app.faults t) msg (app.db st)
     (app.before t (app.c st)) (app.now t)).1.1 = Some err →
  app.RunKafkaReader_turn st t =
    {| app.db := app.db st; app.c := app.before t (app.c st);
       app.reader :=
         {| kafka.GroupID := kafka.GroupID (app.reader st);
            kafka.fetched := kafka.fetched (app.reader st) ++ [msg];
            kafka.committed := kafka.committed (app.reader st) ++ [msg] |} |}.
Proof.
  intros Hgroup Hread Herr.
  destruct (ReadMessage_returns _ _ _ _ Hgroup Hread) as (_ & _ & Heq).
  unfold app.RunKafkaReader_turn. rewrite Heq.
  rewrite (HandleOrder_among_error _ _ _ _ _ _ err) by done.
  pose proof (HandleOrder_cases (app.faults t) msg (app.db st)
                (app.before t (app.c st)) (app.now t)) as Hcases.
  destruct (handler.HandleOrder _ _ _ _ _) as [[[e|] db'] c']; [|done].
  by destruct Hcases as (-> & -> & _).
Qed.

(** X7: a message with an empty payload is skipped: [HandleOrder]
    returns nil without parsing anything and without touching the store
    or the cache, whatever state the store is in, and the loop then
    passes the message to [CommitMessages].  The reader has committed
    the message once, inside [ReadMessage], and commits it once more when
    that call succeeds. *)
Theorem HandleOrder_skips_empty_payload (st : app.Consumer) (t : app.Turn)
  (msg : kafka.Message) :
  kafka.GroupID (app.reader st) ≠ "" →
  (kafka.ReadMessage (app.next t) (app.read_commit_fails t)
     (app.reader st)).1 = inr msg →
  kafka.Value msg = [] →
  handler.HandleOrder (app.faults t) msg (app.db st) (app.c st) (app.now t) =
    (None, app.db st, app.c st)
  ∧ app.RunKafkaReader_turn st t =
      {| app.db := app.db st; app.c := app.before t (app.c st);
         app.reader :=
           {| kafka.GroupID := kafka.GroupID (app.reader st);
              kafka.fetched := kafka.fetched (app.reader st) ++ [msg];
              kafka.committed :=
                if app.commit_fails t
                then kafka.committed (app.reader st) ++ [msg]
                else kafka.committed (app.reader st) ++ [msg; msg] |} |}.
Proof.
  intros Hgroup Hread Hempty.
  split; [unfold handler.HandleOrder; by rewrite Hempty|].
  destruct (ReadMessage_returns _ _ _ _ Hgroup Hread) as (_ & _ & Heq).
  unfold app.RunKafkaReader_turn. rewrite Heq.
  unfold handler.HandleOrder_among. rewrite Hempty.
  rewrite bool_decide_eq_true_2 by done.
  unfold kafka.CommitMessages. cbn [kafka.GroupID].
  rewrite bool_decide_eq_false_2 by done.
  destruct (app.commit_fails t); cbn [snd]; [done|].
  cbn [kafka.fetched kafka.committed]. by rewrite <- app_assoc.
Qed.

(** X8: a payload that parses to an order without an id is refused
    before the cache or the store is consulted: [HandleOrder] returns the
    error [empty order_uid] whatever the store and the cache are, and
    nothing is changed.  The loop skips its [CommitMessages], but the
    message was committed inside [ReadMessage]: after the turn the reader
    has handed it out and committed it once. *)
Theorem HandleOrder_rejects_empty_order_uid (st : app.Consumer) (t : app.Turn)
  (msg : kafka.Message) (order : model.Order) :
  kafka.GroupID (app.reader st) ≠ "" →
  (kafka.ReadMessage (app.next t) (app.read_commit_fails t)
     (app.reader st)).1 = inr msg →
  kafka.Value msg ≠ [] →
  Unmarshal (kafka.Value msg) = inr order → model.OrderUID order = "" →
  (∀ faults db c now,
     handler.HandleOrder faults msg db c now =
       (Some (Errorf "empty order_uid"), db, c))
  ∧ app.RunKafkaReader_turn st t =
      {| app.db := app.db st; app.c := app.before t (app.c st);
         app.reader :=
           {| kafka.GroupID := kafka.GroupID (app.reader st);
              kafka.fetched := kafka.fetched (app.reader st) ++ [msg];
              kafka.committed := kafka.committed (app.reader st) ++ [msg] |} |}.
Proof.
  intros Hgroup Hread Hne Hparse Huid.
  assert (∀ faults db c now,
            handler.HandleOrder faults msg db c now =
              (Some (Errorf "empty order_uid"), db, c)) as Hres.
  { intros. unfold handler.HandleOrder.
    rewrite bool_decide_eq_false_2 by (by destruct (kafka.Value msg)).
    rewrite Hparse. by rewrite bool_decide_eq_true_2. }
  split; [done|].
  apply (RunKafkaReader_turn_error st t msg (Errorf "empty order_uid"));
    [done..|]. by rewrite Hres.
Qed.

(** X9: whenever [HandleOrder] returns an error, the store and the
    cache are exactly as before the call, and the error is one of three:
    the parser's error wrapped, [empty order_uid], or a failure of the
    store's driver wrapped.  The store's [ErrOrderExists] is never
    returned. *)
Theorem HandleOrder_error_changes_nothing (faults : database.DbFaults)
  (msg : kafka.Message) (db db' : database.Database) (c c' : cache.Cache)
  (now : Z) (err : error) :
  handler.HandleOrder faults msg db c now = (Some err, db', c') →
  db' = db ∧ c' = c ∧ HandleOrder_error err ∧ err ≠ ErrOrderExists.
Proof.
  intros Hres. pose proof (HandleOrder_cases faults msg db c now) as Hcases.
  rewrite Hres in Hcases. destruct Hcases as (-> & -> & Herr).
  repeat split; [done|].
  destruct Herr as [[? ->]|[->|[? [-> _]]]]; done.
Qed.

(** X10: a store failure is retried in full.  When the write of a new
    order fails in the driver, [HandleOrder] returns that failure
    wrapped and leaves no row and no cache entry behind; the same message
    delivered again while the store works is then stored and cached as if
    it came for the first time. *)
Theorem store_failure_then_retry (f1 f2 : database.DbFaults)
  (msg : kafka.Message) (order : model.Order) (db : database.Database)
  (c : cache.Cache) (now1 now2 : Z) (cause : error) :
  kafka.Value msg ≠ [] → Unmarshal (kafka.Value msg) = inr order →
  model.OrderUID order ≠ "" →
  cache.items c !! model.OrderUID order = None →
  database.order_exists (model.OrderUID order) db = false →
  (database.MakeOrder f1 order db).1 = Some cause →
  healthy f2 →
  handler.HandleOrder f1 msg db c now1 =
    (Some (Wrapf "failed to save order to DB" cause), db, c)
  ∧ handler.HandleOrder f2 msg db c now2 =
      (None, with_order order db, cache.Set_ c order cache.DefaultTTL now2).
Proof.
  intros Hne Hparse Huid Hmiss Hnew Hfail Hh. split.
  - rewrite (HandleOrder_parsed _ _ order) by done.
    rewrite Get_lookup, Hmiss. cbn [snd].
    pose proof (MakeOrder_result f1 order db) as Hres.
    destruct (database.MakeOrder f1 order db) as [[err|] db']; [|done].
    injection Hfail as ->.
    destruct Hres as [-> [[_ Hex]|[Hdrv _]]]; [congruence|].
    by rewrite (driver_error_not_exists _ Hdrv).
  - rewrite (HandleOrder_parsed _ _ order) by done.
    rewrite Get_lookup, Hmiss. cbn [snd]. by rewrite MakeOrder_new.
Qed.

(** A turn of the loop leaves the store as it was, and the cache as
    the loop had it or as the others have left it; or it stores a new
    order and sets it in the cache as the others have left it by then. *)
Lemma RunKafkaReader_turn_cases (st : app.Consumer) (t : app.Turn) :
  (app.db (app.RunKafkaReader_turn st t) = app.db st
   ∧ (app.c (app.RunKafkaReader_turn st t) = app.c st
      ∨ app.c (app.RunKafkaReader_turn st t) = app.before t (app.c st)))
  ∨ ∃ order,
      model.OrderUID order ≠ ""
      ∧ cache.items (app.before t (app.c st)) !! model.OrderUID order = None
      ∧ database.order_exists (model.OrderUID order) (app.db st) = false
      ∧ app.db (app.RunKafkaReader_turn st t) = with_order order (app.db st)
      ∧ app.c (app.RunKafkaReader_turn st t) =
          cache.Set_ (app.meanwhile t (app.before t (app.c st))) order
            cache.DefaultTTL (app.now t).
Proof.
  unfold app.RunKafkaReader_turn.
  destruct (kafka.ReadMessage _ _ _) as [[err|msg] r1]; [left; by auto|].
  pose proof (HandleOrder_among_cases (app.meanwhile t) (app.faults t) msg
                (app.db st) (app.before t (app.c st)) (app.now t)) as Hcases.
  destruct (handler.HandleOrder_among _ _ _ _ _ _) as [[[err|] db'] c'].
  - destruct Hcases as (-> & -> & _). left. by auto.
  - destruct Hcases as [[-> ->]|(order & _ & Huid & Hmiss & Hnew & -> & ->)].
    + left. by auto.
    + right. by exists order.
Qed.

(** What every turn keeps, the loop keeps. *)
Lemma RunKafkaReader_ind (P : app.Consumer → Prop) :
  (∀ st t, P st → P (app.RunKafkaReader_turn st t)) →
  ∀ turns st, P st → P (app.RunKafkaReader st turns).
Proof.
  intros Hturn turns. induction turns as [|t turns IH]; intros st Hst; [done|].
  unfold app.RunKafkaReader in *. cbn [foldl]. by apply IH, Hturn.
Qed.


End handler_cases.

(** The turn that receives [empty_message]. *)
Lemma HandleOrder_skips_empty_payload_witness :
  @handler.HandleOrder reference.json (app.faults (turn_with empty_message))
    empty_message (app.db fresh_consumer) (app.c fresh_consumer)
    (app.now (turn_with empty_message)) =
    (None, app.db fresh_consumer, app.c fresh_consumer)
  ∧ @app.RunKafkaReader_turn reference.json fresh_consumer
      (turn_with empty_message) =
      {| app.db := app.db fresh_consumer;
         app.c := app.before (turn_with empty_message) (app.c fresh_consumer);
         app.reader :=
           {| kafka.GroupID := kafka.GroupID (app.reader fresh_consumer);
              kafka.fetched :=
                kafka.fetched (app.reader fresh_consumer) ++ [empty_message];
              kafka.committed :=
                if app.commit_fails (turn_with empty_message)
                then kafka.committed (app.reader fresh_consumer)
                       ++ [empty_message]
                else kafka.committed (app.reader fresh_consumer)
                       ++ [empty_message; empty_message] |} |}.
Proof.
  apply (@HandleOrder_skips_empty_payload reference.json fresh_consumer
           (turn_with empty_message) empty_message);
    [discriminate | reflexivity | reflexivity].
Defined.

(** The turn that receives [no_uid_message]. *)
Lemma HandleOrder_rejects_empty_order_uid_witness :
  (∀ faults db c now,
     @handler.HandleOrder reference.json faults no_uid_message db c now =
       (Some (Errorf "empty order_uid"), db, c))
  ∧ @app.RunKafkaReader_turn reference.json fresh_consumer
      (turn_with no_uid_message) =
      {| app.db := app.db fresh_consumer;
         app.c := app.before (turn_with no_uid_message) (app.c fresh_consumer);
         app.reader :=
           {| kafka.GroupID := kafka.GroupID (app.reader fresh_consumer);
              kafka.fetched :=
                kafka.fetched (app.reader fresh_consumer) ++ [no_uid_message];
              kafka.committed :=
                kafka.committed (app.reader fresh_consumer)
                  ++ [no_uid_message] |} |}.
Proof.
  apply (@HandleOrder_rejects_empty_order_uid reference.json fresh_consumer
           (turn_with no_uid_message) no_uid_message
           (reference.order_with_uid ""));
    [discriminate | reflexivity | discriminate | reflexivity | reflexivity].
Defined.

(** [sample_message] while the store cannot begin a transaction. *)
Lemma HandleOrder_error_changes_nothing_witness :
  empty_db = empty_db
  ∧ cache.New "order_cache.gob" = cache.New "order_cache.gob"
  ∧ HandleOrder_error
      (Wrapf "failed to save order to DB"
         (Wrapf "cannot start transaction" PgError))
  ∧ Wrapf "failed to save order to DB"
      (Wrapf "cannot start transaction" PgError) ≠ ErrOrderExists.
Proof.
  apply (@HandleOrder_error_changes_nothing reference.json begin_fails
           sample_message empty_db empty_db (cache.New "order_cache.gob")
           (cache.New "order_cache.gob") sample_now
           (Wrapf "failed to save order to DB"
              (Wrapf "cannot start transaction" PgError))).
  reflexivity.
Defined.

(** [sample_message] first while the store cannot begin a transaction,
    then while it works. *)
Lemma store_failure_then_retry_witness :
  @handler.HandleOrder reference.json begin_fails sample_message empty_db
    (cache.New "order_cache.gob") sample_now =
    (Some (Wrapf "failed to save order to DB"
             (Wrapf "cannot start transaction" PgError)),
     empty_db, cache.New "order_cache.gob")
  ∧ @handler.HandleOrder reference.json database.no_db_faults sample_message
      empty_db (cache.New "order_cache.gob") (sample_now + Second) =
      (None, with_order sample_order empty_db,
       cache.Set_ (cache.New "order_cache.gob") sample_order cache.DefaultTTL
         (sample_now + Second)).
Proof.
  apply (@store_failure_then_retry reference.json begin_fails
           database.no_db_faults sample_message sample_order empty_db
           (cache.New "order_cache.gob") sample_now (sample_now + Second)
           (Wrapf "cannot start transaction" PgError));
    [discriminate | reflexivity | discriminate | reflexivity | reflexivity
    | reflexivity | intros op; reflexivity].
Defined.


(** That turn, run: the order is not stored, and its message is
    committed. *)
Example failed_turn_loses_message :
  @app.RunKafkaReader_turn reference.json fresh_consumer
    (failing_turn_with sample_message) =
    {| app.db := empty_db; app.c := cache.New "order_cache.gob";
       app.reader :=
         {| kafka.GroupID := "order-service-group";
            kafka.fetched := [sample_message];
            kafka.committed := [sample_message] |} |}.
Proof. reflexivity. Qed.

(** ** What the consumer loop keeps *)

Lemma order_exists_stored_ids (uid : string) (db : database.Database) :
  database.order_exists uid db = true ↔ uid ∈ stored_ids db.
Proof.
  unfold database.order_exists, stored_ids.
  rewrite existsb_exists, list_elem_of_fmap. split.
  - intros (r & Hin & Heq). apply bool_decide_eq_true in Heq.
    exists r. split; [done|]. by apply list_elem_of_In.
  - intros (r & -> & Hin). exists r. split; [by apply list_elem_of_In|].
    by apply bool_decide_eq_true.
Qed.

Lemma stored_ids_with_order (order : model.Order) (db : database.Database) :
  stored_ids (with_order order db) = stored_ids db ++ [model.OrderUID order].
Proof. unfold stored_ids, with_order. simpl. by rewrite fmap_app. Qed.

(** What a sweep of the reaper, a [Set] for a stored order and no
    action at all do to the keys of the cache. *)
Lemma adds_only_stored_none (db : database.Database) :
  adds_only_stored db (λ c, c).
Proof. intros c k Hk. by left. Qed.

Lemma adds_only_stored_sweep (db : database.Database) (tick : Z) :
  adds_only_stored db (λ c, cache.DeleteExpired c tick).
Proof.
  intros c k [item Hk]. left.
  apply DeleteExpired_lookup_Some in Hk as [Hk _]. by exists item.
Qed.

Lemma adds_only_stored_Set (db : database.Database) (order : model.Order)
  (d now : Z) :
  model.OrderUID order ∈ stored_ids db →
  adds_only_stored db (λ c, cache.Set_ c order d now).
Proof.
  intros Hin c k Hk.
  destruct (decide (k = model.OrderUID order)) as [->|Hne]; [by right|].
  left. by rewrite Set_lookup_ne in Hk.
Qed.

(** A request served by [orderAPIHandler] adds to the cache at most the
    key it found item rows for: when every order with item rows in the
    store [db] the request queries is an order the store [db'] holds, and
    the others add only such keys during the request, so does the
    request. *)
Lemma adds_only_stored_lookup (faults : database.DbFaults)
  (r : server.Request) (db db' : database.Database)
  (meanwhile : cache.Cache → cache.Cache) (now : Z) :
  (∀ key, item_rows key db ≠ [] → key ∈ stored_ids db') →
  adds_only_stored db' meanwhile →
  adds_only_stored db'
    (λ c, (server.orderAPIHandler faults r db c meanwhile now).2).
Proof.
  intros Hrows Hm c k. unfold server.orderAPIHandler.
  destruct (negb _); [by left|].
  destruct (server.FindStringSubmatch (server.Path r)) as [key|]; [|by left].
  destruct (cache.Get c key) as [order [|]]; [by left|].
  rewrite ItemsInfo_item_rows.
  destruct (faults database.OpQueryItems); [by left|].
  destruct (faults database.OpRowsItems); [by left|].
  destruct (item_rows key db) as [|row rows] eqn:Heq; [by left|].
  rewrite fmap_cons. cbn [snd].
  destruct (decide (k = key)) as [->|Hne].
  - intros _. right. apply Hrows. by rewrite Heq.
  - rewrite Set_lookup_ne by done. apply Hm.
Qed.

(** When the other goroutines leave the cache alone throughout, they
    add nothing to it. *)
Lemma others_add_only_stored_alone `{J : Json} (turns : list app.Turn)
  (st : app.Consumer) :
  (∀ t, t ∈ turns → app.before t = (λ c, c) ∧ app.meanwhile t = (λ c, c)) →
  others_add_only_stored st turns.
Proof.
  revert st. induction turns as [|t turns IH]; intros st Halone; [done|].
  destruct (Halone t) as [Hb Hm]; [apply list_elem_of_here|].
  cbn [others_add_only_stored]. rewrite Hb, Hm.
  split; [apply adds_only_stored_none|].
  split; [apply adds_only_stored_none|].
  apply IH. intros t' Ht'. apply Halone. by apply list_elem_of_further.
Qed.

Section loop_invariants.
Context `{J : Json}.

(** X12: the consumer loop only adds.  After any turns the messages
    the reader has handed out, the messages it has committed and the rows
    of each of the four tables are those from before followed by new
    ones, in the same order: the loop never deletes a row and never takes
    back a commit.  It removes no entry of the cache either: when the
    other goroutines keep every key during the turns, every key of the
    cache is still there afterwards. *)
Theorem RunKafkaReader_only_adds (st : app.Consumer) (turns : list app.Turn) :
  let st' := app.RunKafkaReader st turns in
  kafka.fetched (app.reader st) `prefix_of` kafka.fetched (app.reader st')
  ∧ kafka.committed (app.reader st) `prefix_of` kafka.committed (app.reader st')
  ∧ database.orders (app.db st) `prefix_of` database.orders (app.db st')
  ∧ database.delivery (app.db st) `prefix_of` database.delivery (app.db st')
  ∧ database.payment (app.db st) `prefix_of` database.payment (app.db st')
  ∧ database.items (app.db st) `prefix_of` database.items (app.db st')
  ∧ ((∀ t, t ∈ turns →
           keeps_keys (app.before t) ∧ keeps_keys (app.meanwhile t)) →
     ∀ k, is_Some (cache.items (app.c st) !! k) →
          is_Some (cache.items (app.c st') !! k)).
Proof.
  cbv zeta.
  destruct (RunKafkaReader_reader_grows turns st) as (_ & Hf & Hc).
  split; [done|]. split; [done|]. clear Hf Hc.
  revert st. induction turns as [|t turns IH]; intros st; [done|].
  unfold app.RunKafkaReader in *. cbn [foldl].
  specialize (IH (app.RunKafkaReader_turn st t)).
  destruct IH as (Ho & Hd & Hp & Hi & Hk).
  assert (∀ k, keeps_keys (app.before t) → keeps_keys (app.meanwhile t) →
               is_Some (cache.items (app.c st) !! k) →
               is_Some (cache.items (app.c (app.RunKafkaReader_turn st t)) !! k))
    as Hkeys.
  { intros k Hb Hm Hin.
    destruct (RunKafkaReader_turn_cases st t)
      as [[_ [->| ->]]|(order & _ & _ & _ & _ & ->)];
      [done|by apply Hb|].
    destruct (decide (k = model.OrderUID order)) as [->|Hne];
      [by rewrite Set_lookup_eq|].
    rewrite Set_lookup_ne by done. by apply Hm, Hb. }
  assert (∀ k, (∀ t', t' ∈ t :: turns →
                  keeps_keys (app.before t') ∧ keeps_keys (app.meanwhile t')) →
               is_Some (cache.items (app.c st) !! k) →
               is_Some
                 (cache.items
                    (app.c (foldl app.RunKafkaReader_turn
                              (app.RunKafkaReader_turn st t) turns)) !! k))
    as Hall.
  { intros k Hrely Hin. apply Hk.
    - intros t' Ht'. apply Hrely. by apply list_elem_of_further.
    - destruct (Hrely t) as [Hb Hm]; [by apply list_elem_of_here|].
      by apply Hkeys. }
  destruct (RunKafkaReader_turn_cases st t)
    as [[Hdb _]|(order & _ & _ & _ & Hdb & _)]; rewrite Hdb in *.
  - repeat (split; [done|]). intros Hrely k. by apply Hall.
  - split; [etrans; [|exact Ho]; by apply prefix_app_r|].
    split; [etrans; [|exact Hd]; by apply prefix_app_r|].
    split; [etrans; [|exact Hp]; by apply prefix_app_r|].
    split; [etrans; [|exact Hi]; by apply prefix_app_r|].
    intros Hrely k. by apply Hall.
Qed.

(** X13: order ids stay unique in the store: when no two rows of
    [orders] share an id before the loop runs, none do after any turns,
    whatever messages arrive, however often they are delivered again,
    whichever statements fail and whatever the other goroutines do to the
    cache. *)
Theorem RunKafkaReader_keeps_ids_unique (st : app.Consumer)
  (turns : list app.Turn) :
  NoDup (stored_ids (app.db st)) →
  NoDup (stored_ids (app.db (app.RunKafkaReader st turns))).
Proof.
  apply (RunKafkaReader_ind (λ st, NoDup (stored_ids (app.db st)))).
  clear st turns. intros st t Hnd.
  destruct (RunKafkaReader_turn_cases st t)
    as [[-> _]|(order & _ & _ & Hnew & -> & _)]; [done|].
  rewrite stored_ids_with_order. apply NoDup_app. split; [done|].
  split; [|apply NoDup_singleton].
  intros uid Hin ->%list_elem_of_singleton.
  apply order_exists_stored_ids in Hin. congruence.
Qed.

(** X14: the loop caches only what the store holds: when every key of
    the cache is the id of a stored order before the loop runs, and the
    other goroutines add to the cache only ids of orders the store holds
    by then (lookups that found the order, sweeps of the reaper), the
    same is true after any turns. *)
Theorem RunKafkaReader_caches_stored_orders (st : app.Consumer)
  (turns : list app.Turn) :
  (∀ k, is_Some (cache.items (app.c st) !! k) → k ∈ stored_ids (app.db st)) →
  others_add_only_stored st turns →
  ∀ k, is_Some (cache.items (app.c (app.RunKafkaReader st turns)) !! k) →
       k ∈ stored_ids (app.db (app.RunKafkaReader st turns)).
Proof.
  revert st. induction turns as [|t turns IH]; intros st Hinv Hrely; [done|].
  unfold app.RunKafkaReader in *. cbn [foldl].
  destruct Hrely as (Hb & Hm & Hrest). apply IH; [|done].
  clear IH Hrest. intros k.
  destruct (RunKafkaReader_turn_cases st t)
    as [[Hdb [Hc|Hc]]|(order & _ & _ & _ & Hdb & Hc)];
    rewrite Hdb, Hc in *.
  - apply Hinv.
  - intros Hk. destruct (Hb _ _ Hk) as [Hold|Hin]; [by apply Hinv|done].
  - rewrite stored_ids_with_order, elem_of_app, list_elem_of_singleton.
    destruct (decide (k = model.OrderUID order)) as [->|Hne]; [by right|].
    rewrite Set_lookup_ne by done. intros Hk.
    destruct (Hm _ _ Hk) as [Hmid|Hin].
    + destruct (Hb _ _ Hmid) as [Hold|Hin]; left; [by apply Hinv|done].
    + by rewrite stored_ids_with_order, elem_of_app,
        list_elem_of_singleton in Hin.
Qed.

End loop_invariants.

(** The loop over a failing turn, a malformed message and the sample
    message delivered twice, the second time after a sweep of the reaper
    and beside a lookup, from an empty store and cache. *)
Lemma RunKafkaReader_keeps_ids_unique_witness :
  NoDup (stored_ids
           (app.db (@app.RunKafkaReader reference.json fresh_consumer
                      [failing_turn_with sample_message;
                       turn_with malformed_message;
                       turn_with sample_message;
                       turn_among sample_message (sample_now + 11 * Minute)
                         {| server.Method := "GET";
                            server.Path := "/order/b563feb7b2b84b6test" |}
                         sample_db]))).
Proof.
  apply (@RunKafkaReader_keeps_ids_unique reference.json fresh_consumer
           [failing_turn_with sample_message; turn_with malformed_message;
            turn_with sample_message;
            turn_among sample_message (sample_now + 11 * Minute)
              {| server.Method := "GET";
                 server.Path := "/order/b563feb7b2b84b6test" |}
              sample_db]).
  apply NoDup_nil_2.
Defined.

(** The one order with item rows in [sample_db] is [stored_order]. *)
Lemma item_rows_sample_db (key : string) :
  item_rows key sample_db ≠ [] → key = "b563feb7b2b84b6test".
Proof.
  intros Hrows. destruct (decide (key = "b563feb7b2b84b6test")) as [|Hne];
    [done|].
  destruct Hrows. unfold item_rows, sample_db, with_order.
  cbn [database.items empty_db stored_order model.Items model.OrderUID app
       fmap list_fmap].
  rewrite filter_cons_False; [done|].
  cbn [database.item_row database.i_order_uid]. congruence.
Qed.

(** The loop over one message, for the order a1, from a store that
    holds [stored_order] and an empty cache, while the request for the
    stored order is served between the [Get] and the [Set] of
    [HandleOrder]: the key the request has set is cached afterwards, and
    its order is stored. *)
Lemma RunKafkaReader_caches_stored_orders_witness :
  let st := {| app.db := sample_db; app.c := cache.New "order_cache.gob";
               app.reader := app.InitializeReader |} in
  let t := turn_among
             {| kafka.Key := []; kafka.Value := reference.uid_document "a1";
                kafka.Offset := 3 |}
             sample_now
             {| server.Method := "GET";
                server.Path := "/order/b563feb7b2b84b6test" |}
             sample_db in
  "b563feb7b2b84b6test" ∈
    stored_ids (app.db (@app.RunKafkaReader reference.json st [t])).
Proof.
  cbv zeta.
  apply (@RunKafkaReader_caches_stored_orders reference.json
           {| app.db := sample_db; app.c := cache.New "order_cache.gob";
              app.reader := app.InitializeReader |}
           [turn_among
              {| kafka.Key := []; kafka.Value := reference.uid_document "a1";
                 kafka.Offset := 3 |}
              sample_now
              {| server.Method := "GET";
                 server.Path := "/order/b563feb7b2b84b6test" |}
              sample_db]).
  - intros k [item Hk]. simpl in Hk. by rewrite lookup_empty in Hk.
  - split; [apply adds_only_stored_sweep|]. split; [|exact I].
    apply adds_only_stored_lookup; [|apply adds_only_stored_none].
    intros key ->%item_rows_sample_db. apply list_elem_of_here.
  - eexists. reflexivity.
Defined.

(** ** The lookup handler, beyond the read-through *)

(** X15: requests the handler turns away untouched.  A method other
    than GET is answered 405 whatever the path; a GET whose path is not
    [/order/] followed by a non-empty id of letters, digits and hyphens
    (an empty id, an id with a slash or a dot, another route) is answered
    400.  In both cases neither the cache nor the store is consulted and
    the handler leaves the cache unchanged. *)
Theorem orderAPIHandler_rejects_bad_requests (faults : database.DbFaults)
  (r : server.Request) (db : database.Database) (c : cache.Cache)
  (meanwhile : cache.Cache → cache.Cache) (now : Z) :
  (server.Method r ≠ "GET" →
   server.orderAPIHandler faults r db c meanwhile now =
     (server.HttpError "Method not supported" server.StatusMethodNotAllowed, c))
  ∧ (server.Method r = "GET" →
     (∀ key, server.Path r = String.append "/order/" key →
             key = "" ∨ server.all_id_chars key = false) →
     server.orderAPIHandler faults r db c meanwhile now =
       (server.HttpError "Invalid order ID" server.StatusBadRequest, c)).
Proof.
  unfold server.orderAPIHandler. split.
  - intros Hm. by rewrite bool_decide_eq_false_2.
  - intros Hm Hpath. rewrite bool_decide_eq_true_2 by done. cbn [negb].
    destruct (server.FindStringSubmatch (server.Path r)) as [key|] eqn:Hfind;
      [|done].
    apply FindStringSubmatch_Some in Hfind as (Hp & Hne & Hchars).
    destruct (Hpath key Hp) as [?|?]; congruence.
Qed.

(** X16: after a lookup that missed the cache and found the order's
    items in the store, the same request, served from the cache the first
    one left, is answered from the cache: the order built from the first
    response is sent, whatever has become of the store in the meantime
    and even if it now fails, whatever the other goroutines do during
    either request, and the cache is not changed again. *)
Theorem orderAPIHandler_second_request_from_cache (f1 f2 : database.DbFaults)
  (r : server.Request) (db db2 : database.Database) (c : cache.Cache)
  (meanwhile : cache.Cache → cache.Cache)
  (now now2 : Z) (key : string) (infos : list model.ItemInfo) :
  server.Method r = "GET" →
  server.FindStringSubmatch (server.Path r) = Some key →
  cache.items c !! key = None →
  database.ItemsInfo f1 key db = inr infos →
  let response := {| server.OrderUID := key;
                     server.Items := server.item_response <$> infos |} in
  let c1 := (server.orderAPIHandler f1 r db c meanwhile now).2 in
  (server.orderAPIHandler f1 r db c meanwhile now).1 =
    server.SendSimplified response
  ∧ ∀ meanwhile2,
      server.orderAPIHandler f2 r db2 c1 meanwhile2 now2 =
        (server.SendOrder (server.orderToModel response), c1).
Proof.
  intros Hm Hpath Hmiss Hinfo. cbv zeta.
  assert (server.orderAPIHandler f1 r db c meanwhile now =
          (server.SendSimplified
             {| server.OrderUID := key;
                server.Items := server.item_response <$> infos |},
           cache.Set_ (meanwhile c)
             (server.orderToModel
                {| server.OrderUID := key;
                   server.Items := server.item_response <$> infos |})
             cache.DefaultTTL now)) as Hfirst.
  { unfold server.orderAPIHandler.
    rewrite bool_decide_eq_true_2 by done. cbn [negb].
    rewrite Hpath, Get_lookup, Hmiss, Hinfo.
    apply ItemsInfo_nonempty in Hinfo. by destruct infos. }
  rewrite Hfirst. cbn [fst snd]. split; [done|]. intros meanwhile2.
  unfold server.orderAPIHandler.
  rewrite bool_decide_eq_true_2 by done. cbn [negb]. rewrite Hpath.
  set (response := {| server.OrderUID := key; server.Items := _ |}).
  by rewrite (Get_after_Set (meanwhile c) (server.orderToModel response)
                cache.DefaultTTL now : cache.Get _ key = _).
Qed.

(** The request for the stored order, twice, the first time while a
    sweep of the reaper runs between its [Get] and its [Set], the second
    time with the store empty and failing. *)
Lemma orderAPIHandler_second_request_from_cache_witness :
  let r := {| server.Method := "GET";
              server.Path := "/order/b563feb7b2b84b6test" |} in
  let infos := [database.item_info
                  (database.item_row "b563feb7b2b84b6test" sample_item)] in
  let response := {| server.OrderUID := "b563feb7b2b84b6test";
                     server.Items := server.item_response <$> infos |} in
  let sweep := λ c, cache.DeleteExpired c sample_now in
  let c1 := (server.orderAPIHandler database.no_db_faults r sample_db
               (cache.New "order_cache.gob") sweep sample_now).2 in
  (server.orderAPIHandler database.no_db_faults r sample_db
     (cache.New "order_cache.gob") sweep sample_now).1 =
    server.SendSimplified response
  ∧ ∀ meanwhile2,
      server.orderAPIHandler begin_fails r empty_db c1 meanwhile2
        (sample_now + Minute) =
        (server.SendOrder (server.orderToModel response), c1).
Proof.
  apply (orderAPIHandler_second_request_from_cache database.no_db_faults
           begin_fails
           {| server.Method := "GET";
              server.Path := "/order/b563feb7b2b84b6test" |}
           sample_db empty_db (cache.New "order_cache.gob")
           (λ c, cache.DeleteExpired c sample_now) sample_now
           (sample_now + Minute) "b563feb7b2b84b6test"
           [database.item_info
              (database.item_row "b563feb7b2b84b6test" sample_item)]);
    reflexivity.
Defined.

Lemma orderToModel_items_inj (l1 l2 : list server.ItemResponse) :
  model.Items
    (server.orderToModel {| server.OrderUID := ""; server.Items := l1 |}) =
  model.Items
    (server.orderToModel {| server.OrderUID := ""; server.Items := l2 |}) →
  l1 = l2.
Proof.
  cbn [server.orderToModel model.Items server.Items].
  revert l2. induction l1 as [|a l1 IH]; intros [|b l2] Heq; try done.
  rewrite !fmap_cons in Heq. injection Heq as Hp Hn Hs Ht Hb Hrest.
  f_equal; [|by apply IH]. destruct a, b. simpl in *. congruence.
Qed.

(** X18: [orderToModel] loses nothing of a simplified response: the
    order it builds has the response's id and as many items, and two
    responses that give the same order are the same response. *)
Theorem orderToModel_injective (r : server.Simplified) :
  model.OrderUID (server.orderToModel r) = server.OrderUID r
  ∧ length (model.Items (server.orderToModel r)) = length (server.Items r)
  ∧ ∀ r2, server.orderToModel r = server.orderToModel r2 → r = r2.
Proof.
  split; [done|]. split.
  - cbn [server.orderToModel model.Items]. by rewrite length_fmap.
  - intros r2 Heq. destruct r as [uid l], r2 as [uid2 l2].
    assert (uid = uid2) as <- by (by injection Heq).
    f_equal. apply orderToModel_items_inj.
    by apply (f_equal model.Items) in Heq.
Qed.

(** ** The store: queries *)

(** X19: [ItemsInfo] returns either an error or a list that is not
    empty: the projections of all item rows of that order, in the order
    of the table.  An order with no item row is [ErrOrderNotFound], a
    value [errors.Is] recognises; every other error comes from a failing
    query.  Nothing is ever returned together with an empty list. *)
Theorem ItemsInfo_result (faults : database.DbFaults) (uid : string)
  (db : database.Database) :
  let rows := filter (λ r, database.i_order_uid r = uid) (database.items db) in
  match database.ItemsInfo faults uid db with
  | inr infos =>
      infos ≠ [] ∧ infos = database.item_info <$> rows
      ∧ faults database.OpQueryItems = false
      ∧ faults database.OpRowsItems = false
  | inl err =>
      (err = ErrOrderNotFound ∧ rows = []
       ∧ errors_Is err ErrOrderNotFound = true)
      ∨ (driver_error err ∧ errors_Is err ErrOrderNotFound = false
         ∧ (faults database.OpQueryItems = true
            ∨ faults database.OpRowsItems = true))
  end.
Proof.
  cbv zeta. unfold database.ItemsInfo.
  destruct (faults database.OpQueryItems).
  { right. split; [by eexists|]. auto. }
  destruct (faults database.OpRowsItems).
  { right. split; [by eexists|]. auto. }
  destruct (filter _ _) as [|row rows]; [by left | done].
Qed.

Lemma ItemsInfo_no_rows (faults : database.DbFaults) (uid : string)
  (db : database.Database) :
  filter (λ r, database.i_order_uid r = uid) (database.items db) = [] →
  ∃ err, database.ItemsInfo faults uid db = inl err.
Proof.
  intros Hrows. unfold database.ItemsInfo. rewrite Hrows.
  destruct (faults database.OpQueryItems); [by eexists|].
  destruct (faults database.OpRowsItems); by eexists.
Qed.

Lemma filter_item_rows_same (uid : string) (its : list model.Item) :
  filter (λ r, database.i_order_uid r = uid) (database.item_row uid <$> its) =
    database.item_row uid <$> its.
Proof.
  induction its as [|it its IH]; [done|].
  rewrite fmap_cons, filter_cons_True by done. by rewrite IH.
Qed.

Lemma filter_item_rows_other (uid uid' : string) (its : list model.Item) :
  uid' ≠ uid →
  filter (λ r, database.i_order_uid r = uid') (database.item_row uid <$> its) = [].
Proof.
  intros Hne. induction its as [|it its IH]; [done|].
  rewrite fmap_cons, filter_cons_False; [done|]. simpl. congruence.
Qed.

(** X20: what [MakeOrder] stored, [ItemsInfo] finds.  For an order new
    to a store that works, with no item row under its id yet: after
    [MakeOrder] the query returns the order's items, in their order,
    projected on the seven columns it selects; but an order stored
    without items cannot be found, the query answers
    [ErrOrderNotFound]. *)
Theorem MakeOrder_then_ItemsInfo (faults : database.DbFaults)
  (order : model.Order) (db : database.Database) :
  healthy faults →
  database.order_exists (model.OrderUID order) db = false →
  filter (λ r, database.i_order_uid r = model.OrderUID order)
    (database.items db) = [] →
  ∃ db', database.MakeOrder faults order db = (None, db')
    ∧ database.ItemsInfo faults (model.OrderUID order) db' =
        match model.Items order with
        | [] => inl ErrOrderNotFound
        | _ =>
            inr ((λ it, database.item_info
                          (database.item_row (model.OrderUID order) it))
                   <$> model.Items order)
        end.
Proof.
  intros Hh Hnew Hrows. exists (with_order order db).
  split; [by apply MakeOrder_new|].
  unfold database.ItemsInfo. rewrite !Hh.
  unfold with_order. cbn [database.items].
  rewrite filter_app, Hrows, filter_item_rows_same. cbn [app].
  destruct (model.Items order) as [|it its]; [done|].
  rewrite !fmap_cons. by rewrite <- list_fmap_compose.
Qed.

(** The stored order written to the empty store. *)
Lemma MakeOrder_then_ItemsInfo_witness :
  ∃ db', database.MakeOrder database.no_db_faults stored_order empty_db =
           (None, db')
    ∧ database.ItemsInfo database.no_db_faults (model.OrderUID stored_order) db' =
        match model.Items stored_order with
        | [] => inl ErrOrderNotFound
        | _ =>
            inr ((λ it, database.item_info
                          (database.item_row (model.OrderUID stored_order) it))
                   <$> model.Items stored_order)
        end.
Proof.
  apply (MakeOrder_then_ItemsInfo database.no_db_faults stored_order empty_db);
    [intros op; reflexivity | reflexivity | reflexivity].
Defined.

(** ** The store: the scan of all orders *)

Lemma left_join_cons {A B : Type} (m : A → B → bool) (a : A) (l : list A)
  (r : list B) :
  database.left_join m (a :: l) r =
    database.left_join m [a] r ++ database.left_join m l r.
Proof. unfold database.left_join. simpl. by rewrite app_nil_r. Qed.

Lemma left_join_app {A B : Type} (m : A → B → bool) (l1 l2 : list A)
  (r : list B) :
  database.left_join m (l1 ++ l2) r =
    database.left_join m l1 r ++ database.left_join m l2 r.
Proof. unfold database.left_join. apply flat_map_app. Qed.

Lemma left_join_singleton {A B : Type} (m : A → B → bool) (a : A)
  (r : list B) :
  database.left_join m [a] r =
    match List.filter (m a) r with
    | [] => [(a, None)]
    | bs => (λ b, (a, Some b)) <$> bs
    end.
Proof. unfold database.left_join. cbn [flat_map]. apply app_nil_r. Qed.

(** Every row of the left side appears in the join, and the join has
    no other left sides. *)
Lemma left_join_elem {A B : Type} (m : A → B → bool) (l : list A)
  (r : list B) (a : A) :
  a ∈ l → ∃ b, (a, b) ∈ database.left_join m l r.
Proof.
  induction l as [|x l IH]; [by intros ?%elem_of_nil|].
  rewrite left_join_cons, left_join_singleton.
  intros [->|Hin]%elem_of_cons.
  - destruct (List.filter (m x) r) as [|b bs].
    + exists None. apply elem_of_app. left. by left.
    + exists (Some b). apply elem_of_app. left. rewrite fmap_cons. by left.
  - destruct (IH Hin) as [b Hb]. exists b. apply elem_of_app. by right.
Qed.

Lemma left_join_fst {A B : Type} (m : A → B → bool) (l : list A)
  (r : list B) (a : A) (b : option B) :
  (a, b) ∈ database.left_join m l r → a ∈ l.
Proof.
  induction l as [|x l IH]; [by intros ?%elem_of_nil|].
  rewrite left_join_cons, left_join_singleton.
  intros [Hin|Hin]%elem_of_app; [|right; by apply IH].
  destruct (List.filter (m x) r) as [|b' bs].
  - apply list_elem_of_singleton in Hin. injection Hin as -> _. by left.
  - apply list_elem_of_fmap in Hin as (? & [= -> _] & _). by left.
Qed.

Lemma GetAllOrders_loop_fails (faults : database.DbFaults)
  (db : database.Database)
  (rows : list (database.OrderRow * option database.DeliveryRow
                * option database.PaymentRow))
  (acc : gmap string model.Order) (o : database.OrderRow)
  (d : option database.DeliveryRow) (p : option database.PaymentRow) :
  (o, d, p) ∈ rows →
  filter (λ r, database.i_order_uid r = database.order_uid o)
    (database.items db) = [] →
  ∃ err, database.GetAllOrders_loop faults db rows acc = inl err.
Proof.
  intros Hin Hrows. revert acc.
  induction rows as [|[[o' d'] p'] rows IH]; intros acc;
    [by apply elem_of_nil in Hin|].
  cbn [database.GetAllOrders_loop].
  destruct d' as [d'|]; [|by eexists]. destruct p' as [p'|]; [|by eexists].
  destruct (database.ItemsInfo faults (database.order_uid o') db)
    as [err|infos] eqn:Hinfo; [by eexists|].
  apply elem_of_cons in Hin as [[= -> -> ->]|Hin]; [|by apply IH].
  destruct (ItemsInfo_no_rows faults _ db Hrows) as [err Herr]. congruence.
Qed.

(** X21: one stored order without item rows makes the scan of all
    orders fail: [GetAllOrders] returns an error, whichever other orders
    the store holds and even when every query succeeds, and start-up then
    loads nothing from the store, the cache being what the snapshot
    gave. *)
Theorem order_without_items_fails_GetAllOrders `{G : cache.Gob}
  (io : os.IoFaults) (faults : database.DbFaults)
  (fs : gmap string (list byte)) (db : database.Database) (now : Z)
  (uid : string) :
  uid ∈ stored_ids db →
  filter (λ r, database.i_order_uid r = uid) (database.items db) = [] →
  (∃ err, database.GetAllOrders faults db = inl err)
  ∧ app.InitializeCache io faults fs db now =
      (cache.LoadFromFile io (cache.New "order_cache.gob") fs).2.
Proof.
  intros Hin Hrows.
  assert (∃ err, database.GetAllOrders faults db = inl err) as [err Herr].
  { unfold database.GetAllOrders.
    destruct (faults database.OpQueryAllOrders); [by eexists|].
    apply list_elem_of_fmap in Hin as (o & -> & Hin).
    destruct (left_join_elem
                (λ o d, bool_decide (database.order_uid o = database.d_order_uid d))
                _ (database.delivery db) o Hin) as [d Hd].
    destruct (left_join_elem
                (λ od p, bool_decide (database.order_uid od.1 = database.p_order_uid p))
                _ (database.payment db) (o, d) Hd) as [p Hp].
    destruct (GetAllOrders_loop_fails faults db (database.all_orders_rows db)
                ∅ o d p Hp Hrows) as [err ->].
    by eexists. }
  split; [by eexists|]. unfold app.InitializeCache. by rewrite Herr.
Qed.

(** A store that holds the stored order and an order without items. *)
Lemma order_without_items_fails_GetAllOrders_witness :
  (∃ err, database.GetAllOrders database.no_db_faults
            (with_order (reference.order_with_uid "a1") sample_db) = inl err)
  ∧ @app.InitializeCache reference.gob os.no_io_faults database.no_db_faults
      ∅ (with_order (reference.order_with_uid "a1") sample_db) sample_now =
      (@cache.LoadFromFile reference.gob os.no_io_faults
         (cache.New "order_cache.gob") ∅).2.
Proof.
  apply (@order_without_items_fails_GetAllOrders reference.gob
           os.no_io_faults database.no_db_faults ∅
           (with_order (reference.order_with_uid "a1") sample_db) sample_now
           "a1").
  - rewrite stored_ids_with_order. apply elem_of_app. right. by left.
  - reflexivity.
Defined.

Lemma item_rows_none (uid : string) (rows : list database.ItemRow) :
  (∀ r, r ∈ rows → database.i_order_uid r ≠ uid) →
  filter (λ r, database.i_order_uid r = uid) rows = [].
Proof.
  induction rows as [|r rows IH]; intros Hnone; [done|].
  rewrite filter_cons_False by (apply Hnone; by left).
  apply IH. intros r' Hr'. apply Hnone. by right.
Qed.

Lemma filter_nil_bool {A : Type} (f : A → bool) (l : list A) :
  (∀ x, x ∈ l → f x = false) → List.filter f l = [].
Proof.
  induction l as [|x l IH]; intros Hf; [done|]. simpl.
  rewrite (Hf x) by (by left). apply IH. intros y Hy. apply Hf. by right.
Qed.

(** Joining one more row on each side, the new right row matching the
    new left row only. *)
Lemma left_join_snoc {A B : Type} (m : A → B → bool) (l : list A)
  (r : list B) (a : A) (b : B) :
  (∀ x, x ∈ l → m x b = false) →
  (∀ y, y ∈ r → m a y = false) → m a b = true →
  database.left_join m (l ++ [a]) (r ++ [b]) =
    database.left_join m l r ++ [(a, Some b)].
Proof.
  intros Hold Hnew Hmatch. rewrite left_join_app. f_equal.
  - clear Hnew Hmatch. induction l as [|x l IH]; [done|].
    rewrite (left_join_cons m x l (r ++ [b])), (left_join_cons m x l r).
    rewrite !left_join_singleton, List.filter_app.
    cbn [List.filter]. rewrite (Hold x) by (by left).
    rewrite app_nil_r, IH; [done|]. intros y Hy. apply Hold. by right.
  - rewrite left_join_singleton, List.filter_app.
    cbn [List.filter]. by rewrite Hmatch, (filter_nil_bool _ _ Hnew).
Qed.

Lemma GetAllOrders_loop_app (faults : database.DbFaults)
  (db : database.Database)
  (r1 r2 : list (database.OrderRow * option database.DeliveryRow
                 * option database.PaymentRow))
  (acc : gmap string model.Order) :
  database.GetAllOrders_loop faults db (r1 ++ r2) acc =
    match database.GetAllOrders_loop faults db r1 acc with
    | inl err => inl err
    | inr all => database.GetAllOrders_loop faults db r2 all
    end.
Proof.
  revert acc. induction r1 as [|[[o d] p] r1 IH]; intros acc; [done|].
  cbn [app database.GetAllOrders_loop].
  destruct d as [d|]; [|done]. destruct p as [p|]; [|done].
  by destruct (database.ItemsInfo faults (database.order_uid o) db).
Qed.

Lemma ItemsInfo_with_order_other (faults : database.DbFaults)
  (order : model.Order) (db : database.Database) (uid : string) :
  uid ≠ model.OrderUID order →
  database.ItemsInfo faults uid (with_order order db) =
    database.ItemsInfo faults uid db.
Proof.
  intros Hne. unfold database.ItemsInfo, with_order. cbn [database.items].
  by rewrite filter_app, filter_item_rows_other, app_nil_r.
Qed.

Lemma GetAllOrders_loop_with_order (faults : database.DbFaults)
  (order : model.Order) (db : database.Database)
  (rows : list (database.OrderRow * option database.DeliveryRow
                * option database.PaymentRow))
  (acc : gmap string model.Order) :
  (∀ o d p, (o, d, p) ∈ rows → database.order_uid o ≠ model.OrderUID order) →
  database.GetAllOrders_loop faults (with_order order db) rows acc =
    database.GetAllOrders_loop faults db rows acc.
Proof.
  revert acc. induction rows as [|[[o d] p] rows IH]; intros acc Hrows; [done|].
  cbn [database.GetAllOrders_loop].
  destruct d as [d|]; [|done]. destruct p as [p|]; [|done].
  rewrite ItemsInfo_with_order_other by (eapply Hrows; by left).
  destruct (database.ItemsInfo faults (database.order_uid o) db); [done|].
  apply IH. intros o' d' p' Hin. eapply Hrows. by right.
Qed.

Lemma scan_order_with_order (order : model.Order) (t : database.Tables)
  (o : database.OrderRow) (d : database.DeliveryRow) (p : database.PaymentRow) :
  database.orders (database.insert_order order t) = database.orders t ++ [o] →
  database.delivery (database.insert_delivery order t) =
    database.delivery t ++ [d] →
  database.payment (database.insert_payment order t) =
    database.payment t ++ [p] →
  database.scan_order o d p
    (database.item_info <$>
       (database.item_row (model.OrderUID order) <$> model.Items order)) =
    scanned order.
Proof.
  intros Ho Hd Hp. simpl in Ho, Hd, Hp.
  apply app_inv_head in Ho, Hd, Hp.
  injection Ho as <-. injection Hd as <-. injection Hp as <-.
  destruct order as [uid tn en [] [] its lo sig cu ds sk sm dc oo].
  unfold database.scan_order, scanned. simpl. f_equal.
  rewrite <- !list_fmap_compose. done.
Qed.

(** X22: what [MakeOrder] stored, [GetAllOrders] gives back.  For an
    order with at least one item, new to a store that works and that
    holds no row of any table under its id: the scan of the store after
    [MakeOrder] returns the orders it returned before and, under the new
    id, the order itself with, in each item, only the seven columns
    [ItemsInfo] selects (the item's ChrtID, RID, NmID and Status come
    back as zero values). *)
Theorem GetAllOrders_after_MakeOrder (faults : database.DbFaults)
  (order : model.Order) (db : database.Database)
  (all : gmap string model.Order) :
  healthy faults →
  model.Items order ≠ [] →
  model.OrderUID order ∉ stored_ids db →
  (∀ d, d ∈ database.delivery db →
        database.d_order_uid d ≠ model.OrderUID order) →
  (∀ p, p ∈ database.payment db →
        database.p_order_uid p ≠ model.OrderUID order) →
  (∀ r, r ∈ database.items db →
        database.i_order_uid r ≠ model.OrderUID order) →
  database.GetAllOrders faults db = inr all →
  ∃ db', database.MakeOrder faults order db = (None, db')
    ∧ database.GetAllOrders faults db' =
        inr (<[model.OrderUID order := scanned order]> all).
Proof.
  intros Hh Hitems Hnew Hdel Hpay Hit Hall.
  assert (database.order_exists (model.OrderUID order) db = false) as Hex.
  { apply not_true_is_false. by rewrite order_exists_stored_ids. }
  exists (with_order order db). split; [by apply MakeOrder_new|].
  unfold database.GetAllOrders in *. rewrite !Hh in *.
  destruct (database.GetAllOrders_loop faults db (database.all_orders_rows db) ∅)
    as [err|all'] eqn:Hloop; [done|]. injection Hall as ->.
  assert (∃ o d p,
            database.orders (database.insert_order order db) =
              database.orders db ++ [o]
            ∧ database.delivery (database.insert_delivery order db) =
                database.delivery db ++ [d]
            ∧ database.payment (database.insert_payment order db) =
                database.payment db ++ [p]
            ∧ database.order_uid o = model.OrderUID order
            ∧ database.d_order_uid d = model.OrderUID order
            ∧ database.p_order_uid p = model.OrderUID order)
    as (o & d & p & Ho & Hd & Hp & Huo & Hud & Hup).
  { by eexists _, _, _. }
  assert (database.all_orders_rows (with_order order db) =
          database.all_orders_rows db ++ [(o, Some d, Some p)]) as Hrows.
  { unfold database.all_orders_rows, with_order.
    cbn [database.orders database.delivery database.payment].
    rewrite Ho, Hd, Hp.
    rewrite (left_join_snoc _ (database.orders db) (database.delivery db) o d).
    - rewrite (left_join_snoc _ _ (database.payment db) (o, Some d) p);
        [done| | |].
      + intros [o' d'] Hin. apply left_join_fst in Hin.
        apply bool_decide_eq_false. cbn [fst]. rewrite Hup. intros Heq.
        apply Hnew. rewrite <- Heq. apply list_elem_of_fmap. by exists o'.
      + intros p' Hin. apply bool_decide_eq_false. cbn [fst]. rewrite Huo.
        intros Heq. by apply (Hpay p' Hin).
      + apply bool_decide_eq_true. cbn [fst]. congruence.
    - intros o' Hin. apply bool_decide_eq_false. rewrite Hud. intros Heq.
      apply Hnew. rewrite <- Heq. apply list_elem_of_fmap. by exists o'.
    - intros d' Hin. apply bool_decide_eq_false. rewrite Huo.
      intros Heq. by apply (Hdel d' Hin).
    - apply bool_decide_eq_true. congruence. }
  rewrite Hrows, GetAllOrders_loop_app.
  rewrite GetAllOrders_loop_with_order, Hloop.
  - cbn [database.GetAllOrders_loop].
    assert (database.ItemsInfo faults (database.order_uid o)
              (with_order order db) =
            inr (database.item_info <$>
                   (database.item_row (model.OrderUID order) <$>
                      model.Items order))) as ->.
    { unfold database.ItemsInfo. rewrite !Hh, Huo.
      unfold with_order. cbn [database.items].
      rewrite filter_app, filter_item_rows_same.
      assert (filter (λ r, database.i_order_uid r = model.OrderUID order)
                (database.items db) = []) as ->.
      { apply item_rows_none. intros r Hr. by apply (Hit r). }
      cbn [app]. by destruct (model.Items order). }
    rewrite (scan_order_with_order order db o d p Ho Hd Hp).
    by cbn [scanned model.OrderUID].
  - intros o' d' p' Hin. unfold database.all_orders_rows in Hin.
    apply left_join_fst, left_join_fst in Hin. intros Heq.
    apply Hnew. rewrite <- Heq. apply list_elem_of_fmap. by exists o'.
Qed.

(** The stored order written to the empty store, and scanned. *)
Lemma GetAllOrders_after_MakeOrder_witness :
  ∃ db', database.MakeOrder database.no_db_faults stored_order empty_db =
           (None, db')
    ∧ database.GetAllOrders database.no_db_faults db' =
        inr (<[model.OrderUID stored_order := scanned stored_order]> ∅).
Proof.
  apply (GetAllOrders_after_MakeOrder database.no_db_faults stored_order
           empty_db ∅).
  - intros op. reflexivity.
  - discriminate.
  - by intros ?%elem_of_nil.
  - by intros d ?%elem_of_nil.
  - by intros p ?%elem_of_nil.
  - by intros r ?%elem_of_nil.
  - reflexivity.
Defined.

(** ** Shutdown, then start-up *)



(** ** Which messages the loop commits *)




(** That loop, run: all three messages are committed, the empty one
    twice, and the store holds nothing. *)
Example loop_commits_all_three :
  @app.RunKafkaReader reference.json fresh_consumer
    [turn_with malformed_message; failing_turn_with sample_message;
     turn_with empty_message] =
    {| app.db := empty_db; app.c := cache.New "order_cache.gob";
       app.reader :=
         {| kafka.GroupID := "order-service-group";
            kafka.fetched :=
              [malformed_message; sample_message; empty_message];
            kafka.committed :=
              [malformed_message; sample_message; empty_message;
               empty_message] |} |}.
Proof. reflexivity. Qed.

(** ** A lookup beside the consumer loop *)

Lemma item_rows_with_order (order : model.Order) (db : database.Database) :
  item_rows (model.OrderUID order) db = [] →
  item_rows (model.OrderUID order) (with_order order db) =
    database.item_row (model.OrderUID order) <$> model.Items order.
Proof.
  intros Hrows. unfold item_rows, with_order in *. cbn [database.items].
  by rewrite filter_app, Hrows, filter_item_rows_same.
Qed.

(** X17: a lookup that races with the ingestion of the same order.  The
    request's [Get] misses the cache; then [HandleOrder] stores the new
    order and sets it, in full, in the cache; then the request's query
    finds the item rows just stored, and its [Set] replaces the full
    order in the cache by the order made of the items alone, due ten
    minutes after the request's clock reading. *)
Theorem lookup_beside_ingestion_replaces_order `{J : Json}
  (f1 f2 : database.DbFaults) (msg : kafka.Message) (order : model.Order)
  (r : server.Request) (db : database.Database) (c : cache.Cache)
  (now1 now2 : Z) :
  kafka.Value msg ≠ [] → Unmarshal (kafka.Value msg) = inr order →
  server.Method r = "GET" →
  route_accepts (server.Path r) (model.OrderUID order) →
  healthy f1 →
  f2 database.OpQueryItems = false → f2 database.OpRowsItems = false →
  cache.items c !! model.OrderUID order = None →
  database.order_exists (model.OrderUID order) db = false →
  item_rows (model.OrderUID order) db = [] →
  model.Items order ≠ [] →
  min_int64 ≤ now2 + cache.DefaultTTL ≤ max_int64 →
  let uid := model.OrderUID order in
  let rows := database.item_row uid <$> model.Items order in
  let ingest := handler.HandleOrder f1 msg db c now1 in
  let lookup :=
    server.orderAPIHandler f2 r ingest.1.2 c
      (λ c0, (handler.HandleOrder f1 msg db c0 now1).2) now2 in
  ingest = (None, with_order order db,
            cache.Set_ c order cache.DefaultTTL now1)
  ∧ cache.Get ingest.2 uid = (order, true)
  ∧ lookup.1 = server.SendSimplified (projected_response uid rows)
  ∧ cache.items lookup.2 !! uid =
      Some {| cache.Order := projected_order uid rows;
              cache.Expiration := now2 + cache.DefaultTTL |}
  ∧ cache.Get lookup.2 uid = (projected_order uid rows, true).
Proof.
  intros Hne Hparse Hget Hroute Hh Hq Hr Hmiss Hnew Hrows Hitems Hrange.
  cbv zeta.
  assert (model.OrderUID order ≠ "") as Huid by (by destruct Hroute as (_ & ? & _)).
  assert (handler.HandleOrder f1 msg db c now1 =
          (None, with_order order db,
           cache.Set_ c order cache.DefaultTTL now1)) as Hingest.
  { rewrite (HandleOrder_parsed _ _ order) by done.
    rewrite Get_lookup, Hmiss. cbn [snd]. by rewrite MakeOrder_new. }
  rewrite Hingest. cbn [fst snd].
  split; [done|]. split; [apply Get_after_Set|].
  rewrite (orderAPIHandler_accepted f2 r _ c _ now2 (model.OrderUID order))
    by done.
  rewrite Hmiss, Hq, Hr, (item_rows_with_order order db Hrows). cbn [orb].
  destruct (model.Items order) as [|it its] eqn:Hits; [done|].
  rewrite fmap_cons, <- (fmap_cons (database.item_row (model.OrderUID order))).
  cbn [fst snd].
  set (proj := projected_order _ _).
  pose proof (Set_lookup_eq (handler.HandleOrder f1 msg db c now1).2 proj
                cache.DefaultTTL now2) as Hset.
  rewrite Add_UnixNano_in_range in Hset by done.
  split; [done|]. split; [exact Hset|].
  exact (Get_after_Set _ proj _ now2).
Qed.

(** The order a1 with one item, ingested from an empty store while a
    request for it is under way. *)
Lemma lookup_beside_ingestion_replaces_order_witness :
  let msg := {| kafka.Key := []; kafka.Value := reference.items_document "a1";
                kafka.Offset := 5 |} in
  let order := reference.order_with_item "a1" in
  let r := {| server.Method := "GET"; server.Path := "/order/a1" |} in
  let c := cache.New "order_cache.gob" in
  let now1 := sample_now in
  let now2 := sample_now + Second in
  let uid := model.OrderUID order in
  let rows := database.item_row uid <$> model.Items order in
  let ingest := @handler.HandleOrder reference.json_items
                  database.no_db_faults msg empty_db c now1 in
  let lookup :=
    server.orderAPIHandler database.no_db_faults r ingest.1.2 c
      (λ c0, (@handler.HandleOrder reference.json_items
                database.no_db_faults msg empty_db c0 now1).2) now2 in
  ingest = (None, with_order order empty_db,
            cache.Set_ c order cache.DefaultTTL now1)
  ∧ cache.Get ingest.2 uid = (order, true)
  ∧ lookup.1 = server.SendSimplified (projected_response uid rows)
  ∧ cache.items lookup.2 !! uid =
      Some {| cache.Order := projected_order uid rows;
              cache.Expiration := now2 + cache.DefaultTTL |}
  ∧ cache.Get lookup.2 uid = (projected_order uid rows, true).
Proof.
  apply (@lookup_beside_ingestion_replaces_order reference.json_items
           database.no_db_faults database.no_db_faults
           {| kafka.Key := []; kafka.Value := reference.items_document "a1";
              kafka.Offset := 5 |}
           (reference.order_with_item "a1")
           {| server.Method := "GET"; server.Path := "/order/a1" |}
           empty_db (cache.New "order_cache.gob") sample_now
           (sample_now + Second)).
  - discriminate.
  - reflexivity.
  - reflexivity.
  - split; [reflexivity|]. split; [discriminate | reflexivity].
  - intros op. reflexivity.
  - reflexivity.
  - reflexivity.
  - reflexivity.
  - reflexivity.
  - reflexivity.
  - discriminate.
  - unfold min_int64, max_int64, cache.DefaultTTL, sample_now, Minute, Second,
      Nanosecond. lia.
Defined.
